(** * Tetris.tsx: the game engine of the component, embedded and verified

    The development follows [src/components/Tetris.tsx].  The React
    component keeps eight state variables; every callback is a closure over
    the values of the render in which it was created, and a setter does not
    change those values: it records the value the next render will see.
    Callbacks are therefore functions of two sessions, the rendered snapshot
    they read and the pending session they update.  Several callbacks of
    one render can run before the next render; [step] and [run] are the case
    of one callback between two renders. *)

From Stdlib Require Import ZArith Lia Bool.
From stdpp Require Import base list strings.

Open Scope Z_scope.

#[local] Coercion Z.of_nat : nat >-> Z.

(** ** Results of running a callback

    A callback ends, or is aborted by an uncaught TypeError, or does not end.
    What the session is after an aborted callback is not modelled. *)

Inductive result (A : Type) : Type :=
| Ok (a : A)
| TypeError   (* an element of [undefined] is read or written: the callback is aborted *)
| OutOfFuel.  (* a [while] loop did not finish within the iterations granted *)
Arguments Ok {A} a.
Arguments TypeError {A}.
Arguments OutOfFuel {A}.

#[global] Instance result_ret : MRet result := fun _ a => Ok a.
#[global] Instance result_bind : MBind result := fun _ _ f m =>
  match m with
  | Ok a => f a
  | TypeError => TypeError
  | OutOfFuel => OutOfFuel
  end.

(** ** Data *)

Definition BOARD_WIDTH : Z := 10.
Definition BOARD_HEIGHT : Z := 20.
Definition INITIAL_SPEED : Z := 800.

(** [TetrominoType = readonly (readonly number[])[]]. *)
Abbreviation TetrominoType := (list (list Z)).

(** [Position = { x: number; y: number }]. *)
Record Position : Type := mkPosition { pos_x : Z; pos_y : Z }.

(** The seven keys of [TETROMINOES], in the order of [Object.keys]. *)
Module Kind.
Inductive t : Set := I | O | T | L | J | S | Z.
End Kind.

Definition TETROMINOES (k : Kind.t) : TetrominoType :=
  match k with
  | Kind.I => [[1; 1; 1; 1]]
  | Kind.O => [[1; 1];
               [1; 1]]
  | Kind.T => [[0; 1; 0];
               [1; 1; 1]]
  | Kind.L => [[1; 0];
               [1; 0];
               [1; 1]]
  | Kind.J => [[0; 1];
               [0; 1];
               [1; 1]]
  | Kind.S => [[0; 1; 1];
               [1; 1; 0]]
  | Kind.Z => [[1; 1; 0];
               [0; 1; 1]]
  end.

(** A slot of a board row.  Rows start as arrays of the number 0 and are
    written with the number 1.  A write past the end of a JavaScript array
    extends it and leaves holes; copying an array with [[...row]] turns a
    hole into [undefined]. *)
Inductive cell : Set :=
| Num (n : Z)
| Undefined
| Hole.

Abbreviation Row := (list cell).
Abbreviation Board := (list (list cell)).

(** Truthiness of a number of a mask and of a value read from a row. *)
Definition nonzero (n : Z) : bool := negb (n =? 0).

Definition truthy (c : cell) : bool :=
  match c with
  | Num n => nonzero n
  | Undefined | Hole => false
  end.

(** [row[i]]: a hole, and an index outside the array, read as [undefined]. *)
Definition readCell (row : Row) (i : Z) : cell :=
  if i <? 0 then Undefined
  else match row !! Z.to_nat i with
       | Some Hole | None => Undefined
       | Some c => c
       end.

(** [row[i] = 1].  Inside the array the slot is replaced; at or past the end
    the array is extended, with holes in between.  A negative index names a
    property of the array object, not an element: no slot changes (nothing
    reads that property, and the next [[...row]] copy drops it). *)
Definition writeCell (row : Row) (i : Z) : Row :=
  if i <? 0 then row
  else if (Z.to_nat i <? length row)%nat then <[Z.to_nat i := Num 1]> row
  else row ++ replicate (Z.to_nat i - length row)%nat Hole ++ [Num 1].

(** [[...row]]. *)
Definition spread (row : Row) : Row :=
  (fun c => match c with Hole => Undefined | _ => c end) <$> row.

(** [row.every((cell) => cell)]: the callback is not called on holes. *)
Definition every (row : Row) : bool :=
  forallb (fun c => match c with Hole => true | _ => truthy c end) row.

(** [Array(BOARD_WIDTH).fill(0)]. *)
Definition emptyRow : Row := replicate (Z.to_nat BOARD_WIDTH) (Num 0).

(** [createEmptyBoard].  The twenty rows are one shared array in the source;
    no callback writes to a row of the board state (the merge copies every
    row first), so the sharing is not observable. *)
Definition createEmptyBoard : Board := replicate (Z.to_nat BOARD_HEIGHT) emptyRow.

(** The score is a JavaScript number: adding [undefined] to it gives NaN. *)
Inductive number : Set :=
| Int (n : Z)
| NaN.

Definition add (prev : number) (points : option Z) : number :=
  match prev, points with
  | Int n, Some p => Int (n + p)
  | _, _ => NaN
  end.

(** The state variables of the component. *)
Record Session : Type := mkSession {
  board : Board;
  position : Position;
  tetromino : TetrominoType;
  tetrominoType : Kind.t;
  score : number;
  gameOver : bool;
  isPaused : bool;
  speed : Z
}.

Definition setBoard (v : Board) (p : Session) : Session :=
  mkSession v (position p) (tetromino p) (tetrominoType p) (score p) (gameOver p) (isPaused p) (speed p).
Definition setPosition (v : Position) (p : Session) : Session :=
  mkSession (board p) v (tetromino p) (tetrominoType p) (score p) (gameOver p) (isPaused p) (speed p).
Definition setTetromino (v : TetrominoType) (p : Session) : Session :=
  mkSession (board p) (position p) v (tetrominoType p) (score p) (gameOver p) (isPaused p) (speed p).
Definition setTetrominoType (v : Kind.t) (p : Session) : Session :=
  mkSession (board p) (position p) (tetromino p) v (score p) (gameOver p) (isPaused p) (speed p).
Definition setScore (v : number) (p : Session) : Session :=
  mkSession (board p) (position p) (tetromino p) (tetrominoType p) v (gameOver p) (isPaused p) (speed p).
Definition setGameOver (v : bool) (p : Session) : Session :=
  mkSession (board p) (position p) (tetromino p) (tetrominoType p) (score p) v (isPaused p) (speed p).
Definition setIsPaused (v : bool) (p : Session) : Session :=
  mkSession (board p) (position p) (tetromino p) (tetrominoType p) (score p) (gameOver p) v (speed p).
Definition setSpeed (v : Z) (p : Session) : Session :=
  mkSession (board p) (position p) (tetromino p) (tetrominoType p) (score p) (gameOver p) (isPaused p) v.

(** The values of the first render. *)
Definition initialSession : Session :=
  {| board := createEmptyBoard;
     position := mkPosition 4 0;
     tetromino := TETROMINOES Kind.I;
     tetrominoType := Kind.I;
     score := Int 0;
     gameOver := false;
     isPaused := false;
     speed := INITIAL_SPEED |}.

(** ** Collision *)

(** The inner loop of [isColliding] over the cells of row [y] of the shape,
    from column [x] on. *)
Fixpoint collidingRow (board : Board) (pos : Position) (y : Z) (cells : list Z) (x : Z)
  : result bool :=
  match cells with
  | [] => Ok false
  | c :: rest =>
      if nonzero c then
        let newX := pos_x pos + x in
        let newY := pos_y pos + y in
        if (newX <? 0) || (newX >=? BOARD_WIDTH) || (newY >=? BOARD_HEIGHT) then Ok true
        else if newY >=? 0 then
          match board !! Z.to_nat newY with
          | None => TypeError
          | Some row =>
              if truthy (readCell row newX) then Ok true
              else collidingRow board pos y rest (x + 1)
          end
        else collidingRow board pos y rest (x + 1)
      else collidingRow board pos y rest (x + 1)
  end.

(** The outer loop, from row [y] of the shape on. *)
Fixpoint collidingRows (board : Board) (pos : Position) (rows : TetrominoType) (y : Z)
  : result bool :=
  match rows with
  | [] => Ok false
  | cells :: rest =>
      c ← collidingRow board pos y cells 0;
      if c : bool then Ok true else collidingRows board pos rest (y + 1)
  end.

Definition isColliding (board : Board) (pos : Position) (shape : TetrominoType) : result bool :=
  collidingRows board pos shape 0.

(** ** Rotation *)

(** [tetromino[0].map((_, i) => tetromino.map((row) => row[i]).reverse())].
    A read past the end of a row, which happens for no rectangular mask, is
    [undefined] in the source; it is the number 0 here, which every test of a
    mask cell treats alike. *)
Definition rotated (tetromino : TetrominoType) : result TetrominoType :=
  match tetromino with
  | [] => TypeError
  | row0 :: _ =>
      Ok (imap (fun i _ => reverse ((fun row => default 0 (row !! i)) <$> tetromino)) row0)
  end.

(** ** The callbacks *)

Definition rotate (s p : Session) : result Session :=
  r ← rotated (tetromino s);
  c ← isColliding (board s) (position s) r;
  if negb c then Ok (setTetromino r p) else Ok p.

Definition moveHorizontal (s : Session) (delta : Z) (p : Session) : result Session :=
  let newPos := mkPosition (pos_x (position s) + delta) (pos_y (position s)) in
  c ← isColliding (board s) newPos (tetromino s);
  if negb c then Ok (setPosition newPos p) else Ok p.

Definition moveDown (s p : Session) : result (bool * Session) :=
  let newPos := mkPosition (pos_x (position s)) (pos_y (position s) + 1) in
  c ← isColliding (board s) newPos (tetromino s);
  if negb c then Ok (true, setPosition newPos p) else Ok (false, p).

(** What the cell loop of [mergeTetromino] ends with. *)
Inductive merged : Type :=
| Written (newBoard : Board)
| TopOut.

Fixpoint mergeRow (pos : Position) (y : Z) (cells : list Z) (x : Z) (newBoard : Board)
  : result merged :=
  match cells with
  | [] => Ok (Written newBoard)
  | c :: rest =>
      if nonzero c then
        let boardY := pos_y pos + y in
        if boardY <? 0 then Ok TopOut
        else
          match newBoard !! Z.to_nat boardY with
          | None => TypeError
          | Some row =>
              mergeRow pos y rest (x + 1)
                (<[Z.to_nat boardY := writeCell row (pos_x pos + x)]> newBoard)
          end
      else mergeRow pos y rest (x + 1) newBoard
  end.

Fixpoint mergeRows (pos : Position) (rows : TetrominoType) (y : Z) (newBoard : Board)
  : result merged :=
  match rows with
  | [] => Ok (Written newBoard)
  | cells :: rest =>
      m ← mergeRow pos y cells 0 newBoard;
      match m with
      | Written newBoard' => mergeRows pos rest (y + 1) newBoard'
      | TopOut => Ok TopOut
      end
  end.

(** The loop [for (let y = BOARD_HEIGHT - 1; y >= 0; y--)]: [n] is [y + 1].
    [newBoard.splice(y, 1)] deletes row [y], [newBoard.unshift(...)] puts a
    new row in front, and the loop goes on with [y - 1]. *)
Fixpoint clearLines (n : nat) (newBoard : Board) (completedLines : nat)
  : result (Board * nat) :=
  match n with
  | O => Ok (newBoard, completedLines)
  | S y =>
      match newBoard !! y with
      | None => TypeError
      | Some row =>
          if every row
          then clearLines y (emptyRow :: delete y newBoard) (S completedLines)
          else clearLines y newBoard completedLines
      end
  end.

Definition pointsTable : list Z := [0; 100; 300; 500; 800].

(** [getRandomTetromino] draws one of the seven keys; the key drawn is the
    argument [next] of the callbacks that spawn. *)
Definition spawn (next : Kind.t) (p : Session) : Session :=
  setPosition (mkPosition 4 0) (setTetrominoType next (setTetromino (TETROMINOES next) p)).

(** [mergeTetromino].  [newBoard] is a copy, row by row, of the board of the
    snapshot.  [setBoard(newBoard)] stores the array that the line loop then
    changes in place, so the next render sees the cleared board.  The updater
    functions given to [setScore] and [setSpeed] get the pending values. *)
Definition mergeTetromino (s p : Session) (next : Kind.t) : result Session :=
  m ← mergeRows (position s) (tetromino s) 0 (spread <$> board s);
  match m with
  | TopOut => Ok (setGameOver true p)
  | Written newBoard =>
      '(newBoard, completedLines) ← clearLines (Z.to_nat BOARD_HEIGHT) newBoard 0;
      let p := setBoard newBoard p in
      let p :=
        if (0 <? completedLines)%nat
        then setSpeed (Z.max 100 (speed p - 10))
               (setScore (add (score p) (pointsTable !! completedLines)) p)
        else p in
      Ok (spawn next p)
  end.

Definition resetGame (next : Kind.t) (p : Session) : Session :=
  setSpeed INITIAL_SPEED
    (setGameOver false
       (setScore (Int 0)
          (setTetrominoType next
             (setTetromino (TETROMINOES next)
                (setPosition (mkPosition 4 0)
                   (setBoard createEmptyBoard p)))))).

(** The button [onClick={() => setIsPaused(!isPaused)}]. *)
Definition togglePause (s : Session) : Session := setIsPaused (negb (isPaused s)) s.

Inductive Key : Set := ArrowLeft | ArrowRight | ArrowDown | ArrowUp | Space | OtherKey.

(** [while (moveDown()) {}].  [moveDown] is one closure, made by
    [useCallback] for the render of the snapshot [s]: its [position] is a
    constant of that render, which [setPosition] does not change.  Every
    iteration therefore tests the same candidate position, one row below the
    position of [s], and records it in the pending session. *)
Fixpoint whileMoveDown (fuel : nat) (s p : Session) : result Session :=
  match fuel with
  | O => OutOfFuel
  | S fuel' =>
      '(moved, p') ← moveDown s p;
      if moved : bool then whileMoveDown fuel' s p' else Ok p'
  end.

Definition handleKeyPress (fuel : nat) (s : Session) (key : Key) : result Session :=
  if gameOver s || isPaused s then Ok s
  else
    match key with
    | ArrowLeft => moveHorizontal s (-1) s
    | ArrowRight => moveHorizontal s 1 s
    | ArrowDown => '(_, p) ← moveDown s s; Ok p
    | ArrowUp => rotate s s
    | Space => whileMoveDown fuel s s
    | OtherKey => Ok s
    end.

(** The callback given to [useInterval]. *)
Definition intervalCallback (s : Session) (next : Kind.t) : result Session :=
  '(moved, p) ← moveDown s s;
  if negb moved then mergeTetromino s p next else Ok p.

(** Modelled from the spec: the hook [useInterval] of [src/hooks/useInterval]
    is not among the sources.  The driver calls the callback on a cadence
    given by the delay; the tick is for the falling state only and is a no-op
    while the session is paused or over, which is when the component passes
    [null] for the delay. *)
Definition useInterval (callback : result Session) (delay : option Z) (s : Session)
  : result Session :=
  match delay with
  | Some _ => callback
  | None => Ok s
  end.

Definition tick (s : Session) (next : Kind.t) : result Session :=
  useInterval (intervalCallback s next)
    (if negb (gameOver s) && negb (isPaused s) then Some (speed s) else None) s.

(** ** Events *)

Inductive Event : Set :=
| KeyDown (key : Key)
| Tick (next : Kind.t)
| ClickPause
| ClickReset (next : Kind.t).

Definition step (fuel : nat) (s : Session) (e : Event) : result Session :=
  match e with
  | KeyDown key => handleKeyPress fuel s key
  | Tick next => tick s next
  | ClickPause => Ok (togglePause s)
  | ClickReset next => Ok (resetGame next s)
  end.

(** ** Several callbacks of one render *)

(** The key handler and the interval callback are closures of the render
    that made them.  When more than one of them runs before the next render,
    each reads the values of that one render, the snapshot [s], and the
    setters of a later one are recorded after those of an earlier one, in
    the pending session [p].  [handleKeyPress], [intervalCallback] and [tick]
    above are these callbacks run first, on the pending session [s]. *)
Definition handleKeyPressOn (fuel : nat) (s p : Session) (key : Key) : result Session :=
  if gameOver s || isPaused s then Ok p
  else
    match key with
    | ArrowLeft => moveHorizontal s (-1) p
    | ArrowRight => moveHorizontal s 1 p
    | ArrowDown => '(_, p') ← moveDown s p; Ok p'
    | ArrowUp => rotate s p
    | Space => whileMoveDown fuel s p
    | OtherKey => Ok p
    end.

Definition intervalCallbackOn (s p : Session) (next : Kind.t) : result Session :=
  '(moved, p') ← moveDown s p;
  if negb moved then mergeTetromino s p' next else Ok p'.

Definition tickOn (s p : Session) (next : Kind.t) : result Session :=
  useInterval (intervalCallbackOn s p next)
    (if negb (gameOver s) && negb (isPaused s) then Some (speed s) else None) p.

Definition stepOn (fuel : nat) (s p : Session) (e : Event) : result Session :=
  match e with
  | KeyDown key => handleKeyPressOn fuel s p key
  | Tick next => tickOn s p next
  | ClickPause => Ok (setIsPaused (negb (isPaused s)) p)
  | ClickReset next => Ok (resetGame next p)
  end.

(** The events handled between one render and the next. *)
Fixpoint batch (fuel : nat) (s p : Session) (events : list Event) : result Session :=
  match events with
  | [] => Ok p
  | e :: rest => p' ← stepOn fuel s p e; batch fuel s p' rest
  end.

(** ** Sessions reachable from the first render *)

(** The sessions the component renders.  After a render, callbacks of that
    render run, each on the values of that render, until React renders again
    and shows what they recorded.  How many callbacks share a render is
    decided by React's scheduling, not by the component: the definition
    admits every list of them.  One callback between two renders is [step]. *)
Inductive reachable : Session → Prop :=
| reachable_init : reachable initialSession
| reachable_batch s events fuel s' :
    reachable s → batch fuel s s events = Ok s' → reachable s'.

(** ** Vocabulary of the properties *)

(** The cell in row [y], column [x] of a mask is set. *)
Definition isSet (shape : TetrominoType) (y x : nat) : Prop :=
  ∃ cells c, shape !! y = Some cells ∧ cells !! x = Some c ∧ c ≠ 0.

(** The board holds an occupied cell in column [ax] of row [ay]. *)
Definition occupied (board : Board) (ax ay : Z) : Prop :=
  ∃ row c, board !! Z.to_nat ay = Some row ∧ row !! Z.to_nat ax = Some c ∧ truthy c = true.

(** A cell at column [ax], row [ay] is inside the side walls, above the
    floor and, when it is not above the board, on no occupied cell. *)
Definition free (board : Board) (ax ay : Z) : Prop :=
  0 ≤ ax < BOARD_WIDTH ∧ ay < BOARD_HEIGHT ∧ (0 ≤ ay → ¬ occupied board ax ay).

(** A mask of [r] rows of [c] cells each. *)
Definition rect (r c : nat) (t : TetrominoType) : Prop :=
  length t = r ∧ Forall (λ cells, length cells = c) t.

(** The number in row [i], column [j] of a mask. *)
Definition maskCell (t : TetrominoType) (i j : nat) : option Z :=
  cells ← t !! i; cells !! j.

(** The transform of [rotate] applied [n] times. *)
Fixpoint rotations (n : nat) (t : TetrominoType) : result TetrominoType :=
  match n with
  | O => Ok t
  | S n' => t' ← rotated t; rotations n' t'
  end.

(** A board of BOARD_HEIGHT rows of BOARD_WIDTH slots each. *)
Definition wfBoard (b : Board) : Prop :=
  length b = Z.to_nat BOARD_HEIGHT ∧ Forall (λ row, length row = Z.to_nat BOARD_WIDTH) b.

(** Every set cell of the piece lies inside the grid. *)
Definition inGrid (pos : Position) (t : TetrominoType) : Prop :=
  ∀ y x : nat, isSet t y x →
    0 ≤ pos_x pos + x < BOARD_WIDTH ∧ 0 ≤ pos_y pos + y < BOARD_HEIGHT.

(** The number of rows that [every] accepts. *)
Definition fullRows (b : Board) : nat := length (filter (λ row, every row = true) b).

(** A run of events, each handled on the state the previous one left. *)
Fixpoint run (fuel : nat) (s : Session) (events : list Event) : result Session :=
  match events with
  | [] => Ok s
  | e :: rest => s' ← step fuel s e; run fuel s' rest
  end.

(** Ticks and key presses, as opposed to the two buttons. *)
Definition isInput (e : Event) : Prop :=
  match e with
  | KeyDown _ | Tick _ => True
  | ClickPause | ClickReset _ => False
  end.

(** *** Sample sessions *)

Definition presses (n : nat) (key : Key) : list Event := replicate n (KeyDown key).

(** An O piece is moved sideways, falls for eighteen ticks from row 0 to
    row 18 and is locked by the nineteenth, which draws another O. *)
Definition dropO (moves : list Event) : list Event :=
  moves ++ replicate 19 (Tick Kind.O).

(** After a reset that draws an O: four O pieces side by side on the floor
    from column 0 to column 7, and a fifth one brought down over columns 8
    and 9. *)
Definition twoRowsGame : list Event :=
  ClickReset Kind.O ::
  dropO (presses 4 ArrowLeft) ++
  dropO (presses 2 ArrowLeft) ++
  dropO [] ++
  dropO (presses 2 ArrowRight) ++
  presses 4 ArrowRight ++ replicate 18 (Tick Kind.O).

(** A row that is full but for columns 8 and 9. *)
Definition gapRow : Row :=
  [Num 1; Num 1; Num 1; Num 1; Num 1; Num 1; Num 1; Num 1; Num 0; Num 0].

(** The session that game ends in: an O piece at (8, 18) beside two such
    rows at the bottom. *)
Definition twoRowsSession : Session :=
  {| board := replicate 18 emptyRow ++ [gapRow; gapRow];
     position := mkPosition 8 18;
     tetromino := TETROMINOES Kind.O;
     tetrominoType := Kind.O;
     score := Int 0;
     gameOver := false;
     isPaused := false;
     speed := INITIAL_SPEED |}.

(** An I piece is turned upright, moved sideways and falls for sixteen ticks
    from row 0 to row 16; one more tick locks it and draws another I. *)
Definition uprightI (moves : list Event) : list Event :=
  KeyDown ArrowUp :: moves ++ replicate 16 (Tick Kind.I).

(** After a reset that draws an I: nine upright I pieces side by side on the
    floor from column 1 to column 9, and a tenth one brought down over
    column 0. *)
Definition fourRowsGame : list Event :=
  ClickReset Kind.I ::
  (uprightI (presses 3 ArrowLeft) ++ [Tick Kind.I]) ++
  (uprightI (presses 2 ArrowLeft) ++ [Tick Kind.I]) ++
  (uprightI (presses 1 ArrowLeft) ++ [Tick Kind.I]) ++
  (uprightI [] ++ [Tick Kind.I]) ++
  (uprightI (presses 1 ArrowRight) ++ [Tick Kind.I]) ++
  (uprightI (presses 2 ArrowRight) ++ [Tick Kind.I]) ++
  (uprightI (presses 3 ArrowRight) ++ [Tick Kind.I]) ++
  (uprightI (presses 4 ArrowRight) ++ [Tick Kind.I]) ++
  (uprightI (presses 5 ArrowRight) ++ [Tick Kind.I]) ++
  uprightI (presses 4 ArrowLeft).

(** The session that game ends in: an upright I piece at (0, 16) beside four
    rows full but for column 0. *)
Definition fourRowsSession : Session :=
  {| board := replicate 16 emptyRow ++ replicate 4 (Num 0 :: replicate 9 (Num 1));
     position := mkPosition 0 16;
     tetromino := [[1]; [1]; [1]; [1]];
     tetrominoType := Kind.I;
     score := Int 0;
     gameOver := false;
     isPaused := false;
     speed := INITIAL_SPEED |}.

(** An O piece on an empty board, just spawned and resting on the floor. *)
Definition spawnedO : Session :=
  setTetrominoType Kind.O (setTetromino (TETROMINOES Kind.O) initialSession).

Definition restingO : Session := setPosition (mkPosition 4 18) spawnedO.

(** The hard drop of the spec: the move-down step, each on the state the
    previous one left, until a further move is illegal; then the lock, clear
    and spawn sequence, once. *)
Fixpoint spec_drop (fuel : nat) (s : Session) : result Session :=
  match fuel with
  | O => OutOfFuel
  | S fuel' =>
      '(moved, s') ← moveDown s s;
      if moved : bool then spec_drop fuel' s' else Ok s'
  end.

Definition spec_hard_drop (fuel : nat) (s : Session) (next : Kind.t) : result Session :=
  s' ← spec_drop fuel s; mergeTetromino s' s' next.

(** What every session satisfies that is reached with one callback between
    two renders. *)
Definition invariant (s : Session) : Prop :=
  wfBoard (board s) ∧ inGrid (position s) (tetromino s) ∧
  0 ≤ pos_y (position s) ∧ gameOver s = false.

(** A session in which the piece straddles the top of the board and cannot
    move down: an O piece at (4, -1) over an occupied cell in row 1. *)
Definition straddling : Session :=
  setBoard (<[1%nat := <[4%nat := Num 1]> emptyRow]> createEmptyBoard)
    (setPosition (mkPosition 4 (-1)) spawnedO).

(** The board after the O piece of [restingO] is locked, and the session
    the tick that locks it leaves when the kind [next] is drawn. *)
Definition lockedBoard : Board :=
  replicate 18 emptyRow ++
  [[Num 0; Num 0; Num 0; Num 0; Num 1; Num 1; Num 0; Num 0; Num 0; Num 0];
   [Num 0; Num 0; Num 0; Num 0; Num 1; Num 1; Num 0; Num 0; Num 0; Num 0]].

Definition lockedO (next : Kind.t) : Session :=
  {| board := lockedBoard;
     position := mkPosition 4 0;
     tetromino := TETROMINOES next;
     tetrominoType := next;
     score := Int 0;
     gameOver := false;
     isPaused := false;
     speed := INITIAL_SPEED |}.

(** *** Vocabulary of the further properties *)

(** The slot in row [ay], column [ax] of a board. *)
Definition cellAt (b : Board) (ay ax : nat) : option cell :=
  row ← b !! ay; row !! ax.

(** A slot that holds the number 0 or the number 1. *)
Definition bit (c : cell) : Prop := c = Num 0 ∨ c = Num 1.

Definition bitBoard (b : Board) : Prop := Forall (Forall bit) b.

(** A score that is NaN or a multiple of 100 that is not negative. *)
Definition scoreOK (n : number) : Prop := n = NaN ∨ ∃ k, 0 ≤ k ∧ n = Int (100 * k).

(** The mask is the base mask of the kind after fewer than four turns. *)
Definition orientationOf (k : Kind.t) (t : TetrominoType) : Prop :=
  ∃ n : nat, (n < 4)%nat ∧ rotations n (TETROMINOES k) = Ok t.

(** What such a session satisfies besides [invariant]. *)
Definition playInvariant (s : Session) : Prop :=
  bitBoard (board s) ∧
  100 ≤ speed s ≤ INITIAL_SPEED ∧
  scoreOK (score s) ∧
  orientationOf (tetrominoType s) (tetromino s).

(** A session whose board holds full rows at indices 11, 13, 15, 17 and 19,
    with an O piece at the spawn origin. *)
Definition fiveRowsSession : Session :=
  setBoard
    (replicate 11 emptyRow ++
     [replicate 10 (Num 1); emptyRow; replicate 10 (Num 1); emptyRow;
      replicate 10 (Num 1); emptyRow; replicate 10 (Num 1); emptyRow;
      replicate 10 (Num 1)])
    spawnedO.

(** *** Rendering *)

Definition COLORS (k : Kind.t) : string :=
  match k with
  | Kind.I => "bg-cyan-500"
  | Kind.O => "bg-yellow-500"
  | Kind.T => "bg-purple-500"
  | Kind.L => "bg-orange-500"
  | Kind.J => "bg-blue-500"
  | Kind.S => "bg-green-500"
  | Kind.Z => "bg-red-500"
  end.

(** The inner loop of [renderCell] over the cells of row [tY] of the piece:
    at the first set cell that lies on (x, y) it sets [isCurrent] and breaks. *)
Fixpoint currentInRow (pos : Position) (x y : Z) (tY : Z) (cells : list Z) (tX : Z)
    (isCurrent : bool) : bool :=
  match cells with
  | [] => isCurrent
  | c :: rest =>
      if nonzero c && (pos_x pos + tX =? x) && (pos_y pos + tY =? y) then true
      else currentInRow pos x y tY rest (tX + 1) isCurrent
  end.

(** The outer loop, which the [break] does not leave. *)
Fixpoint currentInRows (pos : Position) (x y : Z) (rows : TetrominoType) (tY : Z)
    (isCurrent : bool) : bool :=
  match rows with
  | [] => isCurrent
  | cells :: rest =>
      currentInRows pos x y rest (tY + 1) (currentInRow pos x y tY cells 0 isCurrent)
  end.

(** The class name [renderCell] gives the cell at column [x] of row [y].
    [currentType] is [tetrominoType] whenever [isCurrent] is set. *)
Definition renderCell (s : Session) (c : cell) (x y : Z) : string :=
  let isCurrent :=
    if negb (truthy c) then currentInRows (position s) x y (tetromino s) 0 false
    else false in
  "w-6 h-6 border border-gray-700 " +:+
  (if truthy c then "bg-gray-600"
   else if isCurrent then COLORS (tetrominoType s)
   else "bg-gray-900").

(** ** What holds on every render *)

(** A board of BOARD_HEIGHT rows, none shorter than BOARD_WIDTH. *)
Definition wideBoard (b : Board) : Prop :=
  length b = Z.to_nat BOARD_HEIGHT ∧
  Forall (λ row : Row, (Z.to_nat BOARD_WIDTH ≤ length row)%nat) b.

(** The writes of a merge of the mask at the position leave no hole: every
    set cell lies at a column of at most BOARD_WIDTH, which is at most the
    length of a row, or directly right of a set cell of its mask row. *)
Definition fits (pos : Position) (t : TetrominoType) : Prop :=
  ∀ (i : nat) cells, t !! i = Some cells →
  ∀ (j : nat) c, cells !! j = Some c → c ≠ 0 →
    pos_x pos + j ≤ BOARD_WIDTH ∨
    ∃ (j' : nat) c', j = S j' ∧ cells !! j' = Some c' ∧ c' ≠ 0.

(** The masks and the positions that callbacks of the render [s] record. *)
Definition recordedMask (s : Session) (t : TetrominoType) : Prop :=
  t = tetromino s ∨
  (∃ k, t = TETROMINOES k) ∨
  (rotated (tetromino s) = Ok t ∧ isColliding (board s) (position s) t = Ok false).

Definition recordedPosition (s : Session) (q : Position) : Prop :=
  q = position s ∨
  q = mkPosition 4 0 ∨
  (isColliding (board s) q (tetromino s) = Ok false ∧
   pos_x (position s) - 1 ≤ pos_x q ≤ pos_x (position s) + 1 ∧
   pos_y (position s) ≤ pos_y q).

(** What every session the component renders satisfies. *)
Definition renderInvariant (s : Session) : Prop :=
  wideBoard (board s) ∧ bitBoard (board s) ∧
  fits (position s) (tetromino s) ∧
  pos_x (position s) < BOARD_WIDTH ∧ 0 ≤ pos_y (position s) ∧
  (∃ k, orientationOf k (tetromino s)) ∧
  100 ≤ speed s ≤ INITIAL_SPEED ∧ scoreOK (score s) ∧ gameOver s = false.

(** What the pending session satisfies while callbacks of the render [s]
    run. *)
Definition pendingInvariant (s p : Session) : Prop :=
  wideBoard (board p) ∧ bitBoard (board p) ∧
  recordedMask s (tetromino p) ∧ recordedPosition s (position p) ∧
  100 ≤ speed p ≤ INITIAL_SPEED ∧ scoreOK (score p) ∧ gameOver p = false.

(** *** A key press on the render of a locking tick *)

(** After a reset that draws an I: the piece is turned upright, moved to
    column 9 and brought down to the floor by sixteen ticks. *)
Definition wallGame : list Event :=
  ClickReset Kind.I :: KeyDown ArrowUp :: presses 5 ArrowRight ++ replicate 16 (Tick Kind.I).

Definition uprightAtWall : Session :=
  {| board := createEmptyBoard;
     position := mkPosition 9 16;
     tetromino := [[1]; [1]; [1]; [1]];
     tetrominoType := Kind.I;
     score := Int 0;
     gameOver := false;
     isPaused := false;
     speed := INITIAL_SPEED |}.

(** What the tick that locks that piece and draws an I, followed by a left
    key of the same render, leaves: the new, flat I piece at (8, 16). *)
Definition staleAtWall : Session :=
  {| board := replicate 16 emptyRow ++ replicate 4 (replicate 9 (Num 0) ++ [Num 1]);
     position := mkPosition 8 16;
     tetromino := TETROMINOES Kind.I;
     tetrominoType := Kind.I;
     score := Int 0;
     gameOver := false;
     isPaused := false;
     speed := INITIAL_SPEED |}.

(** After a reset that draws an I: the flat piece is brought down to the
    floor by nineteen ticks. *)
Definition floorGame : list Event := ClickReset Kind.I :: replicate 19 (Tick Kind.I).

Definition flatAtFloor : Session :=
  {| board := createEmptyBoard;
     position := mkPosition 4 19;
     tetromino := TETROMINOES Kind.I;
     tetrominoType := Kind.I;
     score := Int 0;
     gameOver := false;
     isPaused := false;
     speed := INITIAL_SPEED |}.

(** What the tick that locks that piece and draws an O, followed by a left
    key of the same render, leaves: the new O piece at (3, 19). *)
Definition staleAtFloor : Session :=
  {| board := replicate 19 emptyRow ++
              [[Num 0; Num 0; Num 0; Num 0; Num 1; Num 1; Num 1; Num 1; Num 0; Num 0]];
     position := mkPosition 3 19;
     tetromino := TETROMINOES Kind.O;
     tetrominoType := Kind.O;
     score := Int 0;
     gameOver := false;
     isPaused := false;
     speed := INITIAL_SPEED |}.

(** * Theorems *)

(** ** Boolean tests *)

Ltac zbool :=
  repeat match goal with
    | H : (_ || _) = false |- _ => apply orb_false_elim in H; destruct H
    | H : (_ || _) = true |- _ => apply orb_true_iff in H; destruct H
    | H : (_ && _) = true |- _ => apply andb_true_iff in H; destruct H
    | H : negb _ = true |- _ => apply negb_true_iff in H
    | H : negb _ = false |- _ => apply negb_false_iff in H
    | H : (_ <? _) = true |- _ => apply Z.ltb_lt in H
    | H : (_ <? _) = false |- _ => apply Z.ltb_ge in H
    | H : (_ >=? _) = true |- _ => rewrite Z.geb_leb in H; apply Z.leb_le in H
    | H : (_ >=? _) = false |- _ => rewrite Z.geb_leb in H; apply Z.leb_gt in H
    | H : (_ =? _) = true |- _ => apply Z.eqb_eq in H
    | H : (_ =? _) = false |- _ => apply Z.eqb_neq in H
    end.

Lemma bind_Ok {A B : Type} (f : A → result B) (a : A) : (Ok a ≫= f) = f a.
Proof. reflexivity. Qed.

Lemma nonzero_true n : nonzero n = true ↔ n ≠ 0.
Proof. unfold nonzero. rewrite negb_true_iff, Z.eqb_neq. done. Qed.

Lemma nonzero_false n : nonzero n = false ↔ n = 0.
Proof. unfold nonzero. rewrite negb_false_iff, Z.eqb_eq. done. Qed.

Lemma truthy_readCell row ax :
  0 ≤ ax →
  truthy (readCell row ax) = true ↔ ∃ c, row !! Z.to_nat ax = Some c ∧ truthy c = true.
Proof.
  intros Hax. unfold readCell.
  destruct (ax <? 0) eqn:E; [zbool; lia|].
  destruct (row !! Z.to_nat ax) as [[n| |]|]; simpl; split;
    try discriminate; try (intros (c & [= <-] & Hc); done); try (intros (c & [=] & _)).
  intros H. by exists (Num n).
Qed.

(** ** Collision *)

Section Collision.
Variable board : Board.
Variable pos : Position.
Hypothesis board_rows : (Z.to_nat BOARD_HEIGHT ≤ length board)%nat.

(** The inner loop returns, and it returns false exactly when every set cell
    of the row is free. *)
Lemma collidingRow_spec y cells :
  ∀ x0,
    (collidingRow board pos y cells x0 = Ok false ∧
     ∀ (j : nat) c, cells !! j = Some c → c ≠ 0 →
       free board (pos_x pos + (x0 + j)) (pos_y pos + y))
    ∨ (collidingRow board pos y cells x0 = Ok true ∧
       ∃ (j : nat) c, cells !! j = Some c ∧ c ≠ 0 ∧
         ¬ free board (pos_x pos + (x0 + j)) (pos_y pos + y)).
Proof.
  induction cells as [|c rest IH]; intros x0.
  { left. split; [done|]. intros j c H. by rewrite lookup_nil in H. }
  assert (Hrest :
    (∀ (j : nat) c', (c :: rest) !! j = Some c' → c' ≠ 0 → j ≠ 0%nat) ∨
    free board (pos_x pos + (x0 + 0%nat)) (pos_y pos + y) →
    (collidingRow board pos y rest (x0 + 1) = Ok false ∧
     ∀ (j : nat) c', (c :: rest) !! j = Some c' → c' ≠ 0 →
       free board (pos_x pos + (x0 + j)) (pos_y pos + y))
    ∨ (collidingRow board pos y rest (x0 + 1) = Ok true ∧
       ∃ (j : nat) c', (c :: rest) !! j = Some c' ∧ c' ≠ 0 ∧
         ¬ free board (pos_x pos + (x0 + j)) (pos_y pos + y))).
  { intros Hhead. destruct (IH (x0 + 1)) as [[E F]|[E (j & c' & Hj & Hc' & Hn)]].
    - left. split; [done|]. intros [|j] c' Hj Hc'.
      + destruct Hhead as [Hhead|Hhead]; [by destruct (Hhead _ _ Hj Hc')|done].
      + replace (x0 + S j) with (x0 + 1 + j) by lia. eauto.
    - right. split; [done|]. exists (S j), c'. split; [done|]. split; [done|].
      by replace (x0 + S j) with (x0 + 1 + j) by lia. }
  simpl. destruct (nonzero c) eqn:Hc.
  - apply nonzero_true in Hc.
    destruct ((pos_x pos + x0 <? 0) || (pos_x pos + x0 >=? BOARD_WIDTH)
              || (pos_y pos + y >=? BOARD_HEIGHT)) eqn:Hb.
    { right. split; [done|]. exists 0%nat, c. split; [done|]. split; [done|].
      intros (Hx & Hy & _). unfold BOARD_WIDTH, BOARD_HEIGHT in *. zbool; lia. }
    zbool. destruct (pos_y pos + y >=? 0) eqn:Hy; zbool.
    + destruct (board !! Z.to_nat (pos_y pos + y)) as [row|] eqn:Hrow.
      * destruct (truthy (readCell row (pos_x pos + x0))) eqn:Ht.
        -- right. split; [done|]. exists 0%nat, c. split; [done|]. split; [done|].
           intros (_ & _ & Hfree). apply Hfree; [lia|].
           apply truthy_readCell in Ht as (v & Hv & Htv); [|lia].
           exists row, v. by replace (pos_x pos + (x0 + 0%nat)) with (pos_x pos + x0) by lia.
        -- apply Hrest. right. unfold free, BOARD_WIDTH, BOARD_HEIGHT in *.
           split; [lia|]. split; [lia|]. intros _ (row' & v & Hrow' & Hv & Htv).
           rewrite Hrow in Hrow'. injection Hrow' as <-.
           replace (pos_x pos + (x0 + 0%nat)) with (pos_x pos + x0) in Hv by lia.
           assert (truthy (readCell row (pos_x pos + x0)) = true) as Ht'.
           { apply truthy_readCell; [lia|]. eauto. }
           congruence.
      * apply lookup_ge_None in Hrow. unfold BOARD_HEIGHT in *. lia.
    + apply Hrest. right. unfold free, BOARD_WIDTH, BOARD_HEIGHT in *. lia.
  - apply nonzero_false in Hc. apply Hrest. left. intros [|j] c' Hj Hc'; [|done].
    simpl in Hj. congruence.
Qed.

Lemma collidingRows_spec shape :
  ∀ y0,
    (collidingRows board pos shape y0 = Ok false ∧
     ∀ (i j : nat), isSet shape i j →
       free board (pos_x pos + j) (pos_y pos + (y0 + i)))
    ∨ (collidingRows board pos shape y0 = Ok true ∧
       ∃ (i j : nat), isSet shape i j ∧
         ¬ free board (pos_x pos + j) (pos_y pos + (y0 + i))).
Proof.
  induction shape as [|cells rest IH]; intros y0.
  { left. split; [done|]. intros i j (cells & c & H & _). by rewrite lookup_nil in H. }
  simpl. destruct (collidingRow_spec y0 cells 0) as [[E F]|[E (j & c & Hj & Hc & Hn)]];
    rewrite E; simpl.
  - destruct (IH (y0 + 1)) as [[E' F']|[E' (i & j & Hset & Hn)]].
    + left. split; [done|]. intros [|i] j (cs & c & Hcs & Hc & Hne).
      * simpl in Hcs. injection Hcs as <-.
        replace (y0 + 0%nat) with y0 by lia. apply (F j c Hc Hne).
      * replace (y0 + S i) with (y0 + 1 + i) by lia. apply F'. by exists cs, c.
    + right. split; [done|]. exists (S i), j. split.
      * destruct Hset as (cs & c & ? & ? & ?). by exists cs, c.
      * by replace (y0 + S i) with (y0 + 1 + i) by lia.
  - right. split; [done|]. exists 0%nat, j. split; [by exists cells, c|].
    by replace (y0 + 0%nat) with y0 by lia.
Qed.
End Collision.

(** C6: on a board of at least BOARD_HEIGHT rows the collision test returns,
    and it returns false exactly when every set cell of the shape, placed at
    the origin, has its column in [0, BOARD_WIDTH), its row below
    BOARD_HEIGHT and, when the row is not negative, no occupied board cell
    under it; a shape whose set cells all lie in negative rows between the
    side walls does not collide. *)
Theorem isColliding_false_iff (board : Board) (shape : TetrominoType) (origin : Position) :
  (Z.to_nat BOARD_HEIGHT ≤ length board)%nat →
  (∃ c, isColliding board origin shape = Ok c) ∧
  (isColliding board origin shape = Ok false ↔
   ∀ y x : nat, isSet shape y x →
     0 ≤ pos_x origin + x < BOARD_WIDTH ∧
     pos_y origin + y < BOARD_HEIGHT ∧
     (0 ≤ pos_y origin + y → ¬ occupied board (pos_x origin + x) (pos_y origin + y))) ∧
  ((∀ y x : nat, isSet shape y x →
      0 ≤ pos_x origin + x < BOARD_WIDTH ∧ pos_y origin + y < 0) →
   isColliding board origin shape = Ok false).
Proof.
  intros Hlen. unfold isColliding.
  destruct (collidingRows_spec board origin Hlen shape 0)
    as [[E F]|[E (i & j & Hset & Hn)]]; rewrite E.
  - split; [by exists false|]. split; [|done]. split; [|done].
    intros _ y x Hset. apply (F y x Hset).
  - split; [by exists true|]. split.
    + split; [done|]. intros Hall. destruct Hn. apply (Hall i j Hset).
    + intros Hall. destruct Hn. destruct (Hall i j Hset) as [Hx Hy].
      unfold free, BOARD_HEIGHT. simpl in *. split; [done|]. split; lia.
Qed.

Lemma isColliding_false_iff_witness :
  (Z.to_nat BOARD_HEIGHT ≤ length createEmptyBoard)%nat ∧
  ((∃ c, isColliding createEmptyBoard (mkPosition 4 0) (TETROMINOES Kind.O) = Ok c) ∧
   (isColliding createEmptyBoard (mkPosition 4 0) (TETROMINOES Kind.O) = Ok false ↔
    ∀ y x : nat, isSet (TETROMINOES Kind.O) y x →
      0 ≤ pos_x (mkPosition 4 0) + x < BOARD_WIDTH ∧
      pos_y (mkPosition 4 0) + y < BOARD_HEIGHT ∧
      (0 ≤ pos_y (mkPosition 4 0) + y →
       ¬ occupied createEmptyBoard (pos_x (mkPosition 4 0) + x) (pos_y (mkPosition 4 0) + y))) ∧
   ((∀ y x : nat, isSet (TETROMINOES Kind.O) y x →
       0 ≤ pos_x (mkPosition 4 0) + x < BOARD_WIDTH ∧ pos_y (mkPosition 4 0) + y < 0) →
    isColliding createEmptyBoard (mkPosition 4 0) (TETROMINOES Kind.O) = Ok false)).
Proof.
  split.
  - vm_compute. lia.
  - apply (isColliding_false_iff createEmptyBoard (TETROMINOES Kind.O) (mkPosition 4 0)).
    vm_compute. lia.
Defined.

(** ** Rotation *)

Lemma rect_lookup r c t i cells : rect r c t → t !! i = Some cells → length cells = c.
Proof. intros [_ Hall] Hi. by apply (Forall_lookup_1 _ _ _ _ Hall Hi). Qed.

Lemma rect_maskCell r c t (i j : nat) :
  rect r c t → (i < r)%nat → (j < c)%nat → is_Some (maskCell t i j).
Proof.
  intros Hrect Hi Hj. unfold maskCell.
  destruct (lookup_lt_is_Some_2 t i) as [cells Hcells]; [destruct Hrect; lia|].
  rewrite Hcells. simpl. apply lookup_lt_is_Some_2.
  rewrite (rect_lookup _ _ _ _ _ Hrect Hcells). done.
Qed.

(** Two masks of the same dimensions with the same cells are equal. *)
Lemma rect_ext r c t1 t2 :
  rect r c t1 → rect r c t2 →
  (∀ i j : nat, (i < r)%nat → (j < c)%nat → maskCell t1 i j = maskCell t2 i j) →
  t1 = t2.
Proof.
  intros H1 H2 Hcells. apply list_eq. intros i.
  destruct (decide (i < r)%nat) as [Hi|Hi].
  - destruct (lookup_lt_is_Some_2 t1 i) as [c1 Hc1]; [destruct H1; lia|].
    destruct (lookup_lt_is_Some_2 t2 i) as [c2 Hc2]; [destruct H2; lia|].
    rewrite Hc1, Hc2. f_equal. apply list_eq. intros j.
    destruct (decide (j < c)%nat) as [Hj|Hj].
    + specialize (Hcells i j Hi Hj). unfold maskCell in Hcells.
      by rewrite Hc1, Hc2 in Hcells.
    + rewrite !lookup_ge_None_2; [done| |].
      * rewrite (rect_lookup _ _ _ _ _ H2 Hc2). lia.
      * rewrite (rect_lookup _ _ _ _ _ H1 Hc1). lia.
  - rewrite !lookup_ge_None_2; [done| |]; [destruct H2|destruct H1]; lia.
Qed.

(** One application turns an [r] by [c] mask into a [c] by [r] mask whose
    cell [(i, j)] is the cell [(r - 1 - j, i)] of the original. *)
Lemma rotated_rect r c t :
  rect r c t → (0 < r)%nat →
  ∃ t', rotated t = Ok t' ∧ rect c r t' ∧
        ∀ i j : nat, (i < c)%nat → (j < r)%nat →
          maskCell t' i j = maskCell t (r - 1 - j) i.
Proof.
  intros Hrect Hr. destruct t as [|row0 t0] eqn:Et; [destruct Hrect; simpl in *; lia|].
  rewrite <- Et in *. assert (Hrow0 : length row0 = c).
  { apply (rect_lookup r c t 0 row0 Hrect). by rewrite Et. }
  assert (Hlen : length t = r) by apply Hrect.
  eexists. split; [by rewrite Et|]. split; [split|].
  - by rewrite length_imap.
  - apply Forall_lookup_2. intros i cells Hi.
    apply list_lookup_imap_Some in Hi as (v & _ & ->).
    by rewrite length_reverse, length_fmap.
  - intros i j Hi Hj. unfold maskCell at 1. rewrite list_lookup_imap.
    destruct (lookup_lt_is_Some_2 row0 i) as [v Hv]; [lia|]. rewrite Hv. simpl.
    rewrite reverse_lookup by (rewrite length_fmap; lia).
    rewrite length_fmap, list_lookup_fmap, Hlen.
    replace (r - S j)%nat with (r - 1 - j)%nat by lia.
    unfold maskCell.
    destruct (lookup_lt_is_Some_2 t (r - 1 - j)) as [cells Hcells]; [lia|].
    rewrite Hcells. simpl.
    destruct (lookup_lt_is_Some_2 cells i) as [w Hw].
    { rewrite (rect_lookup _ _ _ _ _ Hrect Hcells). lia. }
    by rewrite Hw.
Qed.

Lemma rotations_two_rect r c t :
  rect r c t → (0 < r)%nat → (0 < c)%nat →
  ∃ t2, rotations 2 t = Ok t2 ∧ rect r c t2 ∧
        ∀ i j : nat, (i < r)%nat → (j < c)%nat →
          maskCell t2 i j = maskCell t (r - 1 - i) (c - 1 - j).
Proof.
  intros Hrect Hr Hc.
  destruct (rotated_rect r c t Hrect Hr) as (t1 & E1 & Hrect1 & Hcell1).
  destruct (rotated_rect c r t1 Hrect1 Hc) as (t2 & E2 & Hrect2 & Hcell2).
  exists t2. split; [simpl; rewrite E1; simpl; rewrite E2; done|]. split; [done|].
  intros i j Hi Hj. rewrite Hcell2, Hcell1 by lia. done.
Qed.

Lemma rotations_four_rect r c t :
  rect r c t → (0 < r)%nat → (0 < c)%nat → rotations 4 t = Ok t.
Proof.
  intros Hrect Hr Hc.
  destruct (rotations_two_rect r c t Hrect Hr Hc) as (t2 & E2 & Hrect2 & Hcell2).
  destruct (rotations_two_rect r c t2 Hrect2 Hr Hc) as (t4 & E4 & Hrect4 & Hcell4).
  assert (rotations 4 t = rotations 2 t2) as ->.
  { simpl in *. destruct (rotated t) as [t1| |]; simpl in *; try discriminate.
    destruct (rotated t1) as [t2'| |]; simpl in *; try discriminate. congruence. }
  rewrite E4. f_equal. apply (rect_ext r c); [done..|].
  intros i j Hi Hj. rewrite Hcell4, Hcell2 by lia. f_equal; lia.
Qed.

(** The seven base masks after one application: a quarter turn clockwise. *)
Lemma rotated_TETROMINOES :
  rotated (TETROMINOES Kind.I) = Ok [[1]; [1]; [1]; [1]] ∧
  rotated (TETROMINOES Kind.O) = Ok [[1; 1]; [1; 1]] ∧
  rotated (TETROMINOES Kind.T) = Ok [[1; 0]; [1; 1]; [1; 0]] ∧
  rotated (TETROMINOES Kind.L) = Ok [[1; 1; 1]; [1; 0; 0]] ∧
  rotated (TETROMINOES Kind.J) = Ok [[1; 0; 0]; [1; 1; 1]] ∧
  rotated (TETROMINOES Kind.S) = Ok [[1; 0]; [1; 1]; [0; 1]] ∧
  rotated (TETROMINOES Kind.Z) = Ok [[0; 1]; [1; 1]; [1; 0]].
Proof. by repeat split. Qed.

Lemma TETROMINOES_rect k :
  ∃ r c, rect r c (TETROMINOES k) ∧ (0 < r ≤ 3)%nat ∧ (0 < c ≤ 4)%nat.
Proof.
  destruct k; simpl;
    [exists 1%nat, 4%nat|exists 2%nat, 2%nat|exists 2%nat, 3%nat|exists 3%nat, 2%nat
    |exists 3%nat, 2%nat|exists 2%nat, 3%nat|exists 2%nat, 3%nat];
    (split; [split; [done|repeat constructor]|lia]).
Qed.

(** C7: for a rectangular mask of r >= 1 rows and c >= 1 columns, four
    applications of the rotation transform give back the mask cell for cell
    (in particular when r = c, the square bounding box); two applications
    give a mask of the original r by c dimensions, the one in between being
    c by r; and each of the seven base masks comes back after four
    applications. *)
Theorem rotated_four_times (t : TetrominoType) (r c : nat) :
  rect r c t → (0 < r)%nat → (0 < c)%nat →
  rotations 4 t = Ok t ∧
  (∃ t1 t2, rotated t = Ok t1 ∧ rect c r t1 ∧ rotations 2 t = Ok t2 ∧ rect r c t2) ∧
  (∀ k, rotations 4 (TETROMINOES k) = Ok (TETROMINOES k)).
Proof.
  intros Hrect Hr Hc. split; [by apply (rotations_four_rect r c)|]. split.
  - destruct (rotated_rect r c t Hrect Hr) as (t1 & E1 & Hrect1 & _).
    destruct (rotations_two_rect r c t Hrect Hr Hc) as (t2 & E2 & Hrect2 & _).
    by exists t1, t2.
  - intros k. destruct (TETROMINOES_rect k) as (r' & c' & Hk & Hr' & Hc').
    apply (rotations_four_rect r' c'); [done|lia..].
Qed.

Lemma rotated_four_times_witness :
  rect 2 3 (TETROMINOES Kind.T) ∧ (0 < 2)%nat ∧ (0 < 3)%nat ∧
  rotations 4 (TETROMINOES Kind.T) = Ok (TETROMINOES Kind.T) ∧
  (∃ t1 t2, rotated (TETROMINOES Kind.T) = Ok t1 ∧ rect 3 2 t1 ∧
            rotations 2 (TETROMINOES Kind.T) = Ok t2 ∧ rect 2 3 t2) ∧
  (∀ k, rotations 4 (TETROMINOES k) = Ok (TETROMINOES k)).
Proof.
  assert (H : rect 2 3 (TETROMINOES Kind.T)) by (split; [done|repeat constructor]).
  split; [exact H|]. split; [lia|]. split; [lia|].
  apply (rotated_four_times (TETROMINOES Kind.T) 2 3 H); lia.
Defined.

(** ** Line clearing *)

Lemma every_emptyRow : every emptyRow = false.
Proof. reflexivity. Qed.

(** Below an index under which no row is full the loop changes nothing. *)
Lemma clearLines_none (n : nat) (b : Board) (k : nat) :
  (n ≤ length b)%nat →
  (∀ (j : nat) row, (j < n)%nat → b !! j = Some row → every row = false) →
  clearLines n b k = Ok (b, k).
Proof.
  induction n as [|y IH]; intros Hlen Hrows; [done|]. simpl.
  destruct (lookup_lt_is_Some_2 b y) as [row Hrow]; [lia|]. rewrite Hrow.
  rewrite (Hrows y row) by (done || lia). apply IH; [lia|].
  intros j row' Hj. apply Hrows. lia.
Qed.

Lemma clearLines_one (n : nat) (b : Board) (k i : nat) (full : Row) :
  (i < n ≤ length b)%nat →
  b !! i = Some full → every full = true →
  (∀ (j : nat) row, j ≠ i → b !! j = Some row → every row = false) →
  clearLines n b k = Ok (emptyRow :: delete i b, S k).
Proof.
  induction n as [|y IH]; intros Hn Hfull Hevery Hothers; [lia|]. simpl.
  destruct (decide (y = i)) as [->|Hne].
  - rewrite Hfull, Hevery. apply clearLines_none.
    + simpl. rewrite length_delete by eauto. lia.
    + intros [|j] row Hj Hrow; simpl in Hrow.
      * injection Hrow as <-. apply every_emptyRow.
      * rewrite list_lookup_delete_lt in Hrow by lia. apply (Hothers j); [lia|done].
  - destruct (lookup_lt_is_Some_2 b y) as [row Hrow]; [lia|]. rewrite Hrow.
    rewrite (Hothers y row) by done. apply IH; [lia|done..].
Qed.

(** C8: on a board of BOARD_HEIGHT rows of which exactly one, row i, is full,
    the line loop reports one line and leaves the board with row i deleted
    and an empty row put in front: BOARD_HEIGHT rows again, all cells of row 0
    the number 0, every row above i one index lower down, every row below i
    where it was. *)
Theorem clearLines_one_full_row (newBoard : Board) (i : nat) (full : Row) :
  length newBoard = Z.to_nat BOARD_HEIGHT →
  newBoard !! i = Some full → every full = true →
  (∀ (j : nat) row, j ≠ i → newBoard !! j = Some row → every row = false) →
  ∃ cleared,
    clearLines (Z.to_nat BOARD_HEIGHT) newBoard 0 = Ok (cleared, 1%nat) ∧
    cleared = emptyRow :: delete i newBoard ∧
    length cleared = Z.to_nat BOARD_HEIGHT ∧
    cleared !! 0%nat = Some (replicate (Z.to_nat BOARD_WIDTH) (Num 0)) ∧
    (∀ j : nat, (j < i)%nat → cleared !! S j = newBoard !! j) ∧
    (∀ j : nat, (i < j)%nat → cleared !! j = newBoard !! j).
Proof.
  intros Hlen Hfull Hevery Hothers.
  assert (Hi : (i < length newBoard)%nat) by (by eapply lookup_lt_Some).
  exists (emptyRow :: delete i newBoard). split; [|split; [done|]].
  { apply (clearLines_one _ _ _ i full); [lia|done..]. }
  split; [simpl; rewrite length_delete by eauto; lia|]. split; [done|]. split.
  - intros j Hj. simpl. by rewrite list_lookup_delete_lt.
  - intros [|j] Hj; [lia|]. simpl. rewrite list_lookup_delete_ge by lia. done.
Qed.

Lemma clearLines_one_full_row_witness :
  ∃ cleared,
    clearLines (Z.to_nat BOARD_HEIGHT) (<[17%nat := replicate 10 (Num 1)]> createEmptyBoard) 0
      = Ok (cleared, 1%nat) ∧
    cleared = emptyRow :: delete 17%nat (<[17%nat := replicate 10 (Num 1)]> createEmptyBoard) ∧
    length cleared = Z.to_nat BOARD_HEIGHT ∧
    cleared !! 0%nat = Some (replicate (Z.to_nat BOARD_WIDTH) (Num 0)) ∧
    (∀ j : nat, (j < 17)%nat →
       cleared !! S j = <[17%nat := replicate 10 (Num 1)]> createEmptyBoard !! j) ∧
    (∀ j : nat, (17 < j)%nat →
       cleared !! j = <[17%nat := replicate 10 (Num 1)]> createEmptyBoard !! j).
Proof.
  apply (clearLines_one_full_row _ 17%nat (replicate 10 (Num 1))).
  - reflexivity.
  - reflexivity.
  - reflexivity.
  - intros j row Hj Hrow.
    rewrite list_lookup_insert_ne in Hrow by done.
    apply lookup_replicate_1 in Hrow as [-> _]. reflexivity.
Defined.

Lemma stepOn_step (fuel : nat) (s : Session) (e : Event) :
  stepOn fuel s s e = step fuel s e.
Proof. by destruct e. Qed.

Lemma reachable_step (s : Session) (e : Event) (fuel : nat) (s' : Session) :
  reachable s → step fuel s e = Ok s' → reachable s'.
Proof.
  intros Hs Hstep. apply (reachable_batch s [e] fuel s' Hs).
  simpl. by rewrite stepOn_step, Hstep.
Qed.

Lemma run_reachable (fuel : nat) (events : list Event) :
  ∀ s s', reachable s → run fuel s events = Ok s' → reachable s'.
Proof.
  induction events as [|e rest IH]; intros s s' Hs H; simpl in H.
  - by injection H as <-.
  - destruct (step fuel s e) as [s1| |] eqn:E; simpl in H; try discriminate.
    apply (IH s1); [|done]. by eapply reachable_step.
Qed.

(** C1: two and four adjacent rows completed at once, in sessions played
    from the first render.  [twoRowsGame] ends in [twoRowsSession], whose O
    piece completes rows 18 and 19; yet the tick that locks it counts one
    line, adds 100 and not 300, and leaves a full row at index 19.
    [fourRowsGame] ends in [fourRowsSession], whose I piece completes rows 16
    to 19; yet the tick that locks it counts two lines, adds 300 and not 800,
    and leaves two full rows. *)
Theorem clearLines_skips_adjacent_rows :
  (run 0 initialSession twoRowsGame = Ok twoRowsSession ∧
   reachable twoRowsSession ∧
   fullRows (board twoRowsSession) = 0%nat ∧
   ∃ merged,
     mergeRows (position twoRowsSession) (tetromino twoRowsSession) 0
       (spread <$> board twoRowsSession) = Ok (Written merged) ∧
     fullRows merged = 2%nat) ∧
  (∀ next, ∃ s',
     tick twoRowsSession next = Ok s' ∧
     score s' = Int 100 ∧
     fullRows (board s') = 1%nat ∧
     board s' !! 19%nat = Some (replicate 10 (Num 1))) ∧
  (run 0 initialSession fourRowsGame = Ok fourRowsSession ∧
   reachable fourRowsSession ∧
   fullRows (board fourRowsSession) = 0%nat ∧
   ∃ merged,
     mergeRows (position fourRowsSession) (tetromino fourRowsSession) 0
       (spread <$> board fourRowsSession) = Ok (Written merged) ∧
     fullRows merged = 4%nat) ∧
  (∀ next, ∃ s',
     tick fourRowsSession next = Ok s' ∧
     score s' = Int 300 ∧
     fullRows (board s') = 2%nat).
Proof.
  assert (Htwo : run 0 initialSession twoRowsGame = Ok twoRowsSession)
    by (vm_compute; reflexivity).
  assert (Hfour : run 0 initialSession fourRowsGame = Ok fourRowsSession)
    by (vm_compute; reflexivity).
  split.
  { split; [exact Htwo|]. split; [exact (run_reachable _ _ _ _ reachable_init Htwo)|].
    split; [reflexivity|]. eexists; split; reflexivity. }
  split; [intros next; eexists; split; [reflexivity|by repeat split]|].
  split.
  { split; [exact Hfour|]. split; [exact (run_reachable _ _ _ _ reachable_init Hfour)|].
    split; [reflexivity|]. eexists; split; reflexivity. }
  intros next; eexists; split; [reflexivity|by repeat split].
Qed.

(** ** Reset *)

(** C5, as amended: from any session, reset leaves an all-empty board of
    BOARD_HEIGHT rows of BOARD_WIDTH zeros, score 0, the initial tick
    interval, the over flag false and a piece of the drawn kind in its base
    orientation at (4, 0); the paused flag is left as it was. *)
Theorem resetGame_spec (s : Session) (next : Kind.t) :
  resetGame next s =
    {| board := replicate 20 (replicate 10 (Num 0));
       position := mkPosition 4 0;
       tetromino := TETROMINOES next;
       tetrominoType := next;
       score := Int 0;
       gameOver := false;
       isPaused := isPaused s;
       speed := INITIAL_SPEED |} ∧
  step 0 s (ClickReset next) = Ok (resetGame next s).
Proof. split; reflexivity. Qed.

(** C5, as stated, fails on a paused session: reset does not clear the
    paused flag. *)
Lemma resetGame_keeps_paused :
  isPaused (togglePause initialSession) = true ∧
  isPaused (resetGame Kind.T (togglePause initialSession)) = true ∧
  isPaused (resetGame Kind.T (togglePause initialSession)) ≠ false.
Proof. split; [reflexivity|]. split; [reflexivity|discriminate]. Qed.

(** ** The cell loop of the merge *)

Section Merge.
Variable pos : Position.

(** In a negative row the first set cell ends the loop; a row without set
    cells leaves the board as it is. *)
Lemma mergeRow_negative y cells :
  pos_y pos + y < 0 →
  ∀ x b,
    mergeRow pos y cells x b = Ok TopOut
    ∨ (mergeRow pos y cells x b = Ok (Written b) ∧
       ∀ (j : nat) c, cells !! j = Some c → c = 0).
Proof.
  intros Hneg. induction cells as [|c rest IH]; intros x b; simpl.
  { right. split; [done|]. intros j c H. by rewrite lookup_nil in H. }
  destruct (nonzero c) eqn:Hc.
  - destruct (pos_y pos + y <? 0) eqn:Hy; [by left|zbool; lia].
  - apply nonzero_false in Hc. destruct (IH (x + 1) b) as [E|[E Hzero]]; [by left|].
    right. split; [done|]. intros [|j] c' Hj; simpl in Hj; [congruence|eauto].
Qed.

Lemma mergeRows_negative rows :
  ∀ y0 b (i j : nat),
    isSet rows i j → pos_y pos + (y0 + i) < 0 →
    mergeRows pos rows y0 b = Ok TopOut.
Proof.
  induction rows as [|cells rest IH]; intros y0 b i j (cs & c & Hcs & Hc & Hne) Hneg.
  { by rewrite lookup_nil in Hcs. }
  simpl. destruct (mergeRow_negative y0 cells ltac:(lia) 0 b) as [E|[E Hzero]];
    rewrite E; simpl; [done|].
  destruct i as [|i]; simpl in Hcs.
  - injection Hcs as <-. destruct Hne. eauto.
  - apply (IH (y0 + 1) b i j); [by exists cs, c|lia].
Qed.

Lemma mergeRow_not_TopOut y cells :
  0 ≤ pos_y pos + y → ∀ x b, mergeRow pos y cells x b ≠ Ok TopOut.
Proof.
  intros Hy. induction cells as [|c rest IH]; intros x b; simpl; [done|].
  destruct (nonzero c); [|apply IH].
  destruct (pos_y pos + y <? 0) eqn:E; [zbool; lia|].
  destruct (b !! Z.to_nat (pos_y pos + y)); [apply IH|done].
Qed.

Lemma mergeRows_not_TopOut rows :
  ∀ y0 b, 0 ≤ pos_y pos + y0 → mergeRows pos rows y0 b ≠ Ok TopOut.
Proof.
  induction rows as [|cells rest IH]; intros y0 b Hy; simpl; [done|].
  pose proof (mergeRow_not_TopOut y0 cells Hy 0 b) as Hrow.
  destruct (mergeRow pos y0 cells 0 b) as [[b'|]| |]; simpl; try done.
  apply IH. lia.
Qed.

Lemma length_writeCell row (i : Z) :
  0 ≤ i < length row → length (writeCell row i) = length row.
Proof.
  intros Hi. unfold writeCell.
  destruct (i <? 0) eqn:E; [zbool; lia|].
  destruct (Z.to_nat i <? length row)%nat eqn:E'.
  - apply length_insert.
  - apply Nat.ltb_ge in E'. lia.
Qed.

(** With every set cell of the row inside the grid the loop writes the
    row and keeps the dimensions of the board. *)
Lemma mergeRow_wf y cells :
  ∀ x0 b,
    wfBoard b →
    (∀ (j : nat) c, cells !! j = Some c → c ≠ 0 →
       0 ≤ pos_x pos + (x0 + j) < BOARD_WIDTH ∧ 0 ≤ pos_y pos + y < BOARD_HEIGHT) →
    ∃ b', mergeRow pos y cells x0 b = Ok (Written b') ∧ wfBoard b'.
Proof.
  induction cells as [|c rest IH]; intros x0 b Hwf Hin; simpl; [by exists b|].
  assert (Hrest : ∀ (j : nat) c', rest !! j = Some c' → c' ≠ 0 →
    0 ≤ pos_x pos + (x0 + 1 + j) < BOARD_WIDTH ∧ 0 ≤ pos_y pos + y < BOARD_HEIGHT).
  { intros j c' Hj Hc'. replace (x0 + 1 + j) with (x0 + S j) by lia.
    by apply (Hin (S j) c'). }
  destruct (nonzero c) eqn:Hc; [|by apply IH].
  apply nonzero_true in Hc. destruct (Hin 0%nat c eq_refl Hc) as [Hx Hy].
  destruct (pos_y pos + y <? 0) eqn:E; [zbool; lia|].
  destruct Hwf as [Hlen Hrows]. unfold BOARD_HEIGHT, BOARD_WIDTH in *.
  destruct (lookup_lt_is_Some_2 b (Z.to_nat (pos_y pos + y))) as [row Hrow]; [lia|].
  rewrite Hrow. apply IH; [|done]. split; [by rewrite length_insert|].
  apply Forall_insert; [done|]. pose proof (Forall_lookup_1 _ _ _ _ Hrows Hrow) as Hw.
  simpl in Hw. rewrite length_writeCell; [done|lia].
Qed.

Lemma mergeRows_wf rows :
  ∀ y0 b,
    wfBoard b →
    (∀ i j : nat, isSet rows i j →
       0 ≤ pos_x pos + j < BOARD_WIDTH ∧ 0 ≤ pos_y pos + (y0 + i) < BOARD_HEIGHT) →
    ∃ b', mergeRows pos rows y0 b = Ok (Written b') ∧ wfBoard b'.
Proof.
  induction rows as [|cells rest IH]; intros y0 b Hwf Hin; simpl; [by exists b|].
  destruct (mergeRow_wf y0 cells 0 b Hwf) as (b1 & E & Hwf1).
  { intros j c Hj Hc. replace (y0) with (y0 + 0%nat) by lia.
    replace (0 + j) with (Z.of_nat j) by lia. apply (Hin 0%nat j). by exists cells, c. }
  rewrite E. simpl. apply IH; [done|]. intros i j (cs & c & Hcs & Hc & Hne).
  replace (y0 + 1 + i) with (y0 + S i) by lia. apply Hin. by exists cs, c.
Qed.
End Merge.

Lemma wfBoard_spread b : wfBoard b → wfBoard (spread <$> b).
Proof.
  intros [Hlen Hrows]. split; [by rewrite length_fmap|].
  apply Forall_fmap. eapply Forall_impl; [exact Hrows|].
  intros row Hrow. simpl. unfold spread. by rewrite length_fmap.
Qed.

Lemma wfBoard_createEmptyBoard : wfBoard createEmptyBoard.
Proof. split; [done|]. by apply Forall_replicate. Qed.

Lemma clearLines_wf (n : nat) :
  ∀ b k0, wfBoard b → (n ≤ Z.to_nat BOARD_HEIGHT)%nat →
    ∃ b' k, clearLines n b k0 = Ok (b', k) ∧ wfBoard b'.
Proof.
  induction n as [|y IH]; intros b k0 Hwf Hn; simpl; [by exists b, k0|].
  destruct (lookup_lt_is_Some_2 b y) as [row Hrow]; [destruct Hwf; lia|].
  rewrite Hrow. destruct (every row); apply IH; try done; try lia.
  destruct Hwf as [Hlen Hrows]. split.
  - simpl. rewrite length_delete by eauto. unfold BOARD_HEIGHT in *. lia.
  - apply Forall_cons. split; [done|]. by apply Forall_delete.
Qed.

Lemma isSet_TETROMINOES k (y x : nat) :
  isSet (TETROMINOES k) y x → (y < 3)%nat ∧ (x < 4)%nat.
Proof.
  intros (cells & c & Hcells & Hc & _).
  destruct (TETROMINOES_rect k) as (r' & c' & Hrect & Hr & Hc').
  apply lookup_lt_Some in Hc. rewrite (rect_lookup _ _ _ _ _ Hrect Hcells) in Hc.
  apply lookup_lt_Some in Hcells. destruct Hrect as [Hlen _]. lia.
Qed.

Lemma inGrid_spawn k : inGrid (mkPosition 4 0) (TETROMINOES k).
Proof.
  intros y x Hset. apply isSet_TETROMINOES in Hset.
  unfold BOARD_WIDTH, BOARD_HEIGHT. simpl. lia.
Qed.

(** The merge of a piece inside the grid of a well-formed board runs to its
    end: it locks, clears and spawns. *)
Lemma mergeTetromino_inGrid (s p : Session) (next : Kind.t) :
  wfBoard (board s) → inGrid (position s) (tetromino s) →
  ∃ newBoard newScore newSpeed,
    mergeTetromino s p next =
      Ok (mkSession newBoard (mkPosition 4 0) (TETROMINOES next) next newScore
            (gameOver p) (isPaused p) newSpeed)
    ∧ wfBoard newBoard.
Proof.
  intros Hwf Hin. unfold mergeTetromino.
  destruct (mergeRows_wf (position s) (tetromino s) 0 (spread <$> board s))
    as (b1 & E1 & Hwf1); [by apply wfBoard_spread|..].
  { intros i j Hset. replace (0 + i) with (Z.of_nat i) by lia. by apply Hin. }
  rewrite E1, bind_Ok.
  destruct (clearLines_wf (Z.to_nat BOARD_HEIGHT) b1 0 Hwf1) as (b2 & k & E2 & Hwf2); [done|].
  rewrite E2, bind_Ok. destruct (0 <? k)%nat; by eexists _, _, _.
Qed.

(** ** Moves *)

Lemma isColliding_false_inGrid (b : Board) (pos : Position) (t : TetrominoType) :
  (Z.to_nat BOARD_HEIGHT ≤ length b)%nat → 0 ≤ pos_y pos →
  isColliding b pos t = Ok false → inGrid pos t.
Proof.
  intros Hlen Hy E. unfold isColliding in E.
  destruct (collidingRows_spec b pos Hlen t 0) as [[_ F]|[E' _]]; [|congruence].
  intros y x Hset. destruct (F y x Hset) as (Hx & Hy' & _). split; [done|lia].
Qed.

(** The loop of the hard drop ends only when the first move down is
    illegal, and then nothing is pending. *)
Lemma whileMoveDown_Ok (fuel : nat) (s : Session) :
  ∀ p p', whileMoveDown fuel s p = Ok p' →
    p' = p ∧
    isColliding (board s) (mkPosition (pos_x (position s)) (pos_y (position s) + 1))
      (tetromino s) = Ok true.
Proof.
  induction fuel as [|fuel IH]; intros p p' H; simpl in H; [discriminate|].
  unfold moveDown in H.
  destruct (isColliding (board s) _ (tetromino s)) as [[|]| |] eqn:E; simpl in H;
    try discriminate.
  - by injection H as <-.
  - apply IH in H as [_ H]. congruence.
Qed.

(** When a move down is legal the loop of the hard drop never ends: every
    iteration finds the position of the snapshot and the same legal move. *)
Lemma whileMoveDown_diverges (s : Session) :
  isColliding (board s) (mkPosition (pos_x (position s)) (pos_y (position s) + 1))
    (tetromino s) = Ok false →
  ∀ fuel p, whileMoveDown fuel s p = OutOfFuel.
Proof.
  intros E fuel. induction fuel as [|fuel IH]; intros p; simpl; [done|].
  unfold moveDown. rewrite E. simpl. apply IH.
Qed.

Lemma whileMoveDown_rest (fuel : nat) (s p : Session) :
  isColliding (board s) (mkPosition (pos_x (position s)) (pos_y (position s) + 1))
    (tetromino s) = Ok true →
  whileMoveDown (S fuel) s p = Ok p.
Proof. intros E. simpl. unfold moveDown. by rewrite E. Qed.

(** ** The invariant *)

Lemma invariant_setPosition (s : Session) (newPos : Position) :
  invariant s → 0 ≤ pos_y newPos →
  isColliding (board s) newPos (tetromino s) = Ok false →
  invariant (setPosition newPos s).
Proof.
  intros (Hwf & _ & _ & Hover) Hy E. split; [done|]. split; [|done].
  apply (isColliding_false_inGrid (board s)); [destruct Hwf; simpl in *; lia|done..].
Qed.

Lemma invariant_setTetromino (s : Session) (r : TetrominoType) :
  invariant s →
  isColliding (board s) (position s) r = Ok false →
  invariant (setTetromino r s).
Proof.
  intros (Hwf & _ & Hy & Hover) E. split; [done|]. split; [|done].
  apply (isColliding_false_inGrid (board s)); [destruct Hwf; simpl in *; lia|done..].
Qed.

Lemma invariant_initialSession : invariant initialSession.
Proof.
  split; [apply wfBoard_createEmptyBoard|]. split; [apply (inGrid_spawn Kind.I)|done].
Qed.

Lemma handleKeyPress_invariant (fuel : nat) (s s' : Session) (key : Key) :
  invariant s → handleKeyPress fuel s key = Ok s' → invariant s'.
Proof.
  intros Hinv H. pose proof Hinv as (_ & _ & Hy & _). unfold handleKeyPress in H.
  destruct (gameOver s || isPaused s); [by injection H as <-|].
  destruct key; simpl in H.
  - unfold moveHorizontal in H.
    destruct (isColliding (board s) _ (tetromino s)) as [[|]| |] eqn:E; simpl in H;
      try discriminate; injection H as <-; [done|].
    by apply invariant_setPosition.
  - unfold moveHorizontal in H.
    destruct (isColliding (board s) _ (tetromino s)) as [[|]| |] eqn:E; simpl in H;
      try discriminate; injection H as <-; [done|].
    by apply invariant_setPosition.
  - unfold moveDown in H.
    destruct (isColliding (board s) _ (tetromino s)) as [[|]| |] eqn:E; simpl in H;
      try discriminate; injection H as <-; [done|].
    apply invariant_setPosition; [done|simpl; lia|done].
  - unfold rotate in H. destruct (rotated (tetromino s)) as [r| |]; simpl in H;
      try discriminate.
    destruct (isColliding (board s) (position s) r) as [[|]| |] eqn:E; simpl in H;
      try discriminate; injection H as <-; [done|].
    by apply invariant_setTetromino.
  - by apply whileMoveDown_Ok in H as [-> _].
  - by injection H as <-.
Qed.

Lemma tick_invariant (s s' : Session) (next : Kind.t) :
  invariant s → tick s next = Ok s' → invariant s'.
Proof.
  intros Hinv H. pose proof Hinv as (Hwf & Hin & Hy & Hover).
  unfold tick, useInterval in H.
  destruct (negb (gameOver s) && negb (isPaused s)); [|by injection H as <-].
  unfold intervalCallback, moveDown in H.
  destruct (isColliding (board s) _ (tetromino s)) as [[|]| |] eqn:E; simpl in H;
    try discriminate.
  - destruct (mergeTetromino_inGrid s s next Hwf Hin) as (b & sc & sp & E' & Hwf').
    rewrite E' in H. injection H as <-.
    split; [done|]. split; [apply inGrid_spawn|done].
  - injection H as <-. apply invariant_setPosition; [done|simpl; lia|done].
Qed.

Lemma step_invariant (fuel : nat) (s s' : Session) (e : Event) :
  invariant s → step fuel s e = Ok s' → invariant s'.
Proof.
  intros Hinv H. destruct e as [key|next| |next]; simpl in H.
  - by eapply handleKeyPress_invariant.
  - by eapply tick_invariant.
  - injection H as <-. exact Hinv.
  - injection H as <-. split; [apply wfBoard_createEmptyBoard|].
    split; [apply inGrid_spawn|done].
Qed.

Lemma run_invariant (fuel : nat) (events : list Event) :
  ∀ s s', invariant s → run fuel s events = Ok s' → invariant s'.
Proof.
  induction events as [|e rest IH]; intros s s' Hs H; simpl in H.
  - by injection H as <-.
  - destruct (step fuel s e) as [s1| |] eqn:E; simpl in H; try discriminate.
    apply (IH s1); [|done]. by eapply step_invariant.
Qed.

(** ** What one callback records *)

Lemma bind_Ok_inv {A B : Type} (m : result A) (f : A → result B) (b : B) :
  m ≫= f = Ok b → ∃ a, m = Ok a ∧ f a = Ok b.
Proof. intros H. destruct m as [a| |]; [by exists a|discriminate H..]. Qed.

Lemma moveDown_Ok (s p p' : Session) (moved : bool) :
  moveDown s p = Ok (moved, p') →
  (moved = false ∧ p' = p) ∨
  (moved = true ∧
   isColliding (board s) (mkPosition (pos_x (position s)) (pos_y (position s) + 1))
     (tetromino s) = Ok false ∧
   p' = setPosition (mkPosition (pos_x (position s)) (pos_y (position s) + 1)) p).
Proof.
  unfold moveDown. intros H.
  destruct (isColliding (board s) _ (tetromino s)) as [[|]| |]; simpl in H;
    try discriminate; injection H as <- <-; [by left|by right].
Qed.

Lemma moveHorizontal_Ok (s p p' : Session) (delta : Z) :
  moveHorizontal s delta p = Ok p' →
  p' = p ∨
  (isColliding (board s) (mkPosition (pos_x (position s) + delta) (pos_y (position s)))
     (tetromino s) = Ok false ∧
   p' = setPosition (mkPosition (pos_x (position s) + delta) (pos_y (position s))) p).
Proof.
  unfold moveHorizontal. intros H.
  destruct (isColliding (board s) _ (tetromino s)) as [[|]| |]; simpl in H;
    try discriminate; injection H as <-; [by left|by right].
Qed.

Lemma rotate_Ok (s p p' : Session) :
  rotate s p = Ok p' →
  p' = p ∨
  ∃ r, rotated (tetromino s) = Ok r ∧
       isColliding (board s) (position s) r = Ok false ∧ p' = setTetromino r p.
Proof.
  unfold rotate. intros H. apply bind_Ok_inv in H as (r & Er & H).
  destruct (isColliding (board s) (position s) r) as [[|]| |] eqn:E; simpl in H;
    try discriminate; injection H as <-; [by left|right; by exists r].
Qed.

Lemma mergeTetromino_Ok (s p p' : Session) (next : Kind.t) :
  mergeTetromino s p next = Ok p' →
  (mergeRows (position s) (tetromino s) 0 (spread <$> board s) = Ok TopOut ∧
   p' = setGameOver true p) ∨
  ∃ merged cleared (k : nat),
    mergeRows (position s) (tetromino s) 0 (spread <$> board s) = Ok (Written merged) ∧
    clearLines (Z.to_nat BOARD_HEIGHT) merged 0 = Ok (cleared, k) ∧
    p' = mkSession cleared (mkPosition 4 0) (TETROMINOES next) next
           (if (0 <? k)%nat then add (score p) (pointsTable !! k) else score p)
           (gameOver p) (isPaused p)
           (if (0 <? k)%nat then Z.max 100 (speed p - 10) else speed p).
Proof.
  unfold mergeTetromino. intros H. apply bind_Ok_inv in H as ([b|] & Em & H).
  - apply bind_Ok_inv in H as ([b2 k] & Ec & H). right. cbv beta iota zeta in H.
    exists b, b2, k. split; [done|]. split; [done|].
    destruct (0 <? k)%nat; by injection H as <-.
  - left. by injection H as <-.
Qed.

(** What the callback of an event of the render [s] makes of the pending
    session [p]. *)
Lemma stepOn_Ok (fuel : nat) (s p p' : Session) (e : Event) :
  stepOn fuel s p e = Ok p' →
  p' = p ∨
  (∃ q, isColliding (board s) q (tetromino s) = Ok false ∧
        pos_x (position s) - 1 ≤ pos_x q ≤ pos_x (position s) + 1 ∧
        pos_y (position s) ≤ pos_y q ∧ p' = setPosition q p) ∨
  (∃ r, rotated (tetromino s) = Ok r ∧
        isColliding (board s) (position s) r = Ok false ∧ p' = setTetromino r p) ∨
  (mergeRows (position s) (tetromino s) 0 (spread <$> board s) = Ok TopOut ∧
   p' = setGameOver true p) ∨
  (∃ merged cleared (k : nat) next,
     mergeRows (position s) (tetromino s) 0 (spread <$> board s) = Ok (Written merged) ∧
     clearLines (Z.to_nat BOARD_HEIGHT) merged 0 = Ok (cleared, k) ∧
     p' = mkSession cleared (mkPosition 4 0) (TETROMINOES next) next
            (if (0 <? k)%nat then add (score p) (pointsTable !! k) else score p)
            (gameOver p) (isPaused p)
            (if (0 <? k)%nat then Z.max 100 (speed p - 10) else speed p)) ∨
  p' = setIsPaused (negb (isPaused s)) p ∨
  (∃ next, p' = resetGame next p).
Proof.
  intros H.
  assert (Hside : ∀ delta, -1 ≤ delta ≤ 1 → moveHorizontal s delta p = Ok p' →
    p' = p ∨
    (∃ q, isColliding (board s) q (tetromino s) = Ok false ∧
          pos_x (position s) - 1 ≤ pos_x q ≤ pos_x (position s) + 1 ∧
          pos_y (position s) ≤ pos_y q ∧ p' = setPosition q p) ∨
    (∃ r, rotated (tetromino s) = Ok r ∧
          isColliding (board s) (position s) r = Ok false ∧ p' = setTetromino r p) ∨
    (mergeRows (position s) (tetromino s) 0 (spread <$> board s) = Ok TopOut ∧
     p' = setGameOver true p) ∨
    (∃ merged cleared (k : nat) next,
       mergeRows (position s) (tetromino s) 0 (spread <$> board s) = Ok (Written merged) ∧
       clearLines (Z.to_nat BOARD_HEIGHT) merged 0 = Ok (cleared, k) ∧
       p' = mkSession cleared (mkPosition 4 0) (TETROMINOES next) next
              (if (0 <? k)%nat then add (score p) (pointsTable !! k) else score p)
              (gameOver p) (isPaused p)
              (if (0 <? k)%nat then Z.max 100 (speed p - 10) else speed p)) ∨
    p' = setIsPaused (negb (isPaused s)) p ∨
    (∃ next, p' = resetGame next p)).
  { intros delta Hd Hm. apply moveHorizontal_Ok in Hm as [Hm|[E Hm]]; [by left|].
    right; left. eexists. split; [exact E|]. simpl. split; [lia|]. split; [lia|done]. }
  destruct e as [key|next| |next].
  - unfold stepOn, handleKeyPressOn in H.
    destruct (gameOver s || isPaused s); [injection H as <-; by left|].
    destruct key.
    + apply (Hside (-1)); [lia|done].
    + apply (Hside 1); [lia|done].
    + apply bind_Ok_inv in H as ([moved p1] & Em & H). cbv beta iota in H.
      injection H as ->. apply moveDown_Ok in Em as [[_ Em]|(_ & E & Em)]; [by left|].
      right; left. eexists. split; [exact E|]. simpl. split; [lia|]. split; [lia|done].
    + apply rotate_Ok in H as [H|(r & Er & E & H)]; [by left|].
      right; right; left. by exists r.
    + apply whileMoveDown_Ok in H as [-> _]. by left.
    + injection H as <-. by left.
  - unfold stepOn, tickOn, useInterval in H.
    destruct (negb (gameOver s) && negb (isPaused s)); [|injection H as <-; by left].
    unfold intervalCallbackOn in H.
    apply bind_Ok_inv in H as ([moved p1] & Em & H). cbv beta iota in H.
    apply moveDown_Ok in Em as [[-> ->]|(-> & E & ->)].
    + change (negb false) with true in H. cbv iota in H.
      apply mergeTetromino_Ok in H as [Hm|(merged & cleared & k & Hm)].
      * right; right; right; by left.
      * right; right; right; right; left. by exists merged, cleared, k, next.
    + change (negb true) with false in H. cbv iota in H. injection H as <-.
      right; left. eexists. split; [exact E|]. simpl. split; [lia|]. split; [lia|done].
  - injection H as <-. do 5 right. by left.
  - injection H as <-. do 6 right. by exists next.
Qed.

(** A property of the pending session that every callback of the render
    [s] keeps holds after any number of them. *)
Lemma batch_records (fuel : nat) (P : Session → Prop) (s : Session) :
  (∀ p p' e, P p → stepOn fuel s p e = Ok p' → P p') →
  ∀ events p p', P p → batch fuel s p events = Ok p' → P p'.
Proof.
  intros Hstep. induction events as [|e rest IH]; intros p p' Hp H; simpl in H.
  - by injection H as <-.
  - destruct (stepOn fuel s p e) as [p1| |] eqn:E; simpl in H; try discriminate.
    apply (IH p1); [|done]. by apply (Hstep p p1 e).
Qed.

(** However many callbacks of one render run, the origin of the piece stays
    in a row y >= 0 and the over flag is never set. *)
Lemma reachable_origin (s : Session) :
  reachable s → 0 ≤ pos_y (position s) ∧ gameOver s = false.
Proof.
  induction 1 as [|s events fuel s' _ [Hy Hover] Hbatch]; [done|].
  apply (batch_records fuel
    (λ p, 0 ≤ pos_y (position p) ∧ gameOver p = false) s) in Hbatch; [done| |done].
  intros p p' e [Hyp Hop] Hstep.
  destruct (stepOn_Ok fuel s p p' e Hstep)
    as [->|[(q & _ & _ & Hq & ->)|[(r & _ & _ & ->)|[[Hm _]|
        [(merged & cleared & k & next & _ & _ & ->)|[->|[next ->]]]]]]]; simpl;
    try done; try (split; [lia|done]).
  destruct (mergeRows_not_TopOut (position s) (tetromino s) 0 (spread <$> board s));
    [lia|done].
Qed.

(** C4: in every reachable session the origin of the active piece has y >= 0,
    so no set cell of the piece maps to a negative board row, the cell loop
    of the merge never takes the top-out branch, and the over flag is false:
    no step out of a reachable session sets it. *)
Theorem reachable_never_gameOver (s : Session) :
  reachable s →
  0 ≤ pos_y (position s) ∧
  (∀ y x : nat, isSet (tetromino s) y x → 0 ≤ pos_y (position s) + y) ∧
  (∀ b, mergeRows (position s) (tetromino s) 0 b ≠ Ok TopOut) ∧
  gameOver s = false ∧
  (∀ fuel e s', step fuel s e = Ok s' → gameOver s' = false).
Proof.
  intros Hreach. pose proof (reachable_origin s Hreach) as [Hy Hover].
  split; [done|]. split; [intros; lia|]. split.
  - intros b. apply mergeRows_not_TopOut. lia.
  - split; [done|]. intros fuel e s' Hstep.
    apply (reachable_origin s'). by eapply reachable_step.
Qed.

Lemma tick_initialSession :
  step 0 initialSession (Tick Kind.T) = Ok (setPosition (mkPosition 4 1) initialSession).
Proof. reflexivity. Defined.

Lemma reachable_never_gameOver_witness :
  reachable (setPosition (mkPosition 4 1) initialSession) ∧
  gameOver (setPosition (mkPosition 4 1) initialSession) = false.
Proof.
  assert (H : reachable (setPosition (mkPosition 4 1) initialSession)).
  { exact (reachable_step _ _ _ _ reachable_init tick_initialSession). }
  split; [exact H|].
  exact (proj1 (proj2 (proj2 (proj2 (reachable_never_gameOver _ H))))).
Defined.

(** ** One callback between two renders *)

(** X16: when every callback runs on the render that follows the one of the
    callback before it, every set cell of the active piece has its column in
    [0, BOARD_WIDTH) and its row in [0, BOARD_HEIGHT); the board has
    BOARD_HEIGHT rows of BOARD_WIDTH slots, so the slot the merge writes for a
    set cell exists; and the merge runs to its end without a TypeError and
    leaves a board of the same dimensions. *)
Theorem played_merge_inside_grid (fuel : nat) (events : list Event) (s : Session) :
  run fuel initialSession events = Ok s →
  (∀ y x : nat, isSet (tetromino s) y x →
     0 ≤ pos_x (position s) + x < BOARD_WIDTH ∧
     0 ≤ pos_y (position s) + y < BOARD_HEIGHT ∧
     ∃ row, board s !! Z.to_nat (pos_y (position s) + y) = Some row ∧
            (Z.to_nat (pos_x (position s) + x) < length row)%nat) ∧
  wfBoard (board s) ∧
  (∀ p next, ∃ s', mergeTetromino s p next = Ok s' ∧ wfBoard (board s')).
Proof.
  intros Hrun.
  pose proof (run_invariant fuel events initialSession s invariant_initialSession Hrun)
    as (Hwf & Hin & Hy & Hover).
  split; [|split; [done|]].
  - intros y x Hset. destruct (Hin y x Hset) as [Hx Hy'].
    split; [done|]. split; [done|]. destruct Hwf as [Hlen Hrows].
    unfold BOARD_HEIGHT, BOARD_WIDTH in *.
    destruct (lookup_lt_is_Some_2 (board s) (Z.to_nat (pos_y (position s) + y)))
      as [row Hrow]; [lia|].
    exists row. split; [done|].
    pose proof (Forall_lookup_1 _ _ _ _ Hrows Hrow) as Hw. simpl in Hw. lia.
  - intros p next.
    destruct (mergeTetromino_inGrid s p next Hwf Hin) as (b & sc & sp & E & Hwf').
    eexists. split; [exact E|done].
Qed.

Lemma played_merge_inside_grid_witness :
  run 0 initialSession wallGame = Ok uprightAtWall ∧
  wfBoard (board uprightAtWall) ∧
  (∀ p next, ∃ s', mergeTetromino uprightAtWall p next = Ok s' ∧ wfBoard (board s')).
Proof.
  assert (H : run 0 initialSession wallGame = Ok uprightAtWall) by (vm_compute; reflexivity).
  split; [exact H|].
  exact (proj2 (played_merge_inside_grid 0 wallGame uprightAtWall H)).
Defined.

(** ** Sessions that are over or paused *)

Lemma handleKeyPress_gated (fuel : nat) (s : Session) (key : Key) :
  gameOver s = true ∨ isPaused s = true → handleKeyPress fuel s key = Ok s.
Proof. intros [H|H]; unfold handleKeyPress; rewrite H; [done|by rewrite orb_true_r]. Qed.

Lemma tick_gated (s : Session) (next : Kind.t) :
  gameOver s = true ∨ isPaused s = true → tick s next = Ok s.
Proof. intros [H|H]; unfold tick; rewrite H; [done|by rewrite andb_false_r]. Qed.

Lemma run_gated (fuel : nat) (s : Session) (events : list Event) :
  gameOver s = true ∨ isPaused s = true → Forall isInput events →
  run fuel s events = Ok s.
Proof.
  intros Hs Hall. induction Hall as [|e rest He _ IH]; [done|]. simpl.
  destruct e as [key|next| |next]; simpl in *; try done.
  - by rewrite handleKeyPress_gated, bind_Ok.
  - by rewrite tick_gated, bind_Ok.
Qed.

Lemma run_app (fuel : nat) (events1 events2 : list Event) :
  ∀ s, run fuel s (events1 ++ events2) = (s' ← run fuel s events1; run fuel s' events2).
Proof.
  induction events1 as [|e rest IH]; intros s; simpl; [done|].
  destruct (step fuel s e) as [s1| |]; simpl; [apply IH|done..].
Qed.

(** C3: when a set cell of the piece maps to a negative board row, the merge
    ends on the top-out branch: the pending session gets the over flag and
    nothing else, so the board, score, piece and tick interval are as
    before and no piece is spawned; a tick whose move down is illegal thus
    leaves the session over.  On a session that is over every tick and every
    key press, and every run of them, changes nothing; reset clears the
    flag. *)
Theorem mergeTetromino_topOut (s : Session) :
  (∃ y x : nat, isSet (tetromino s) y x ∧ pos_y (position s) + y < 0) →
  (∀ p next, mergeTetromino s p next = Ok (setGameOver true p)) ∧
  (gameOver s = false → isPaused s = false →
   isColliding (board s) (mkPosition (pos_x (position s)) (pos_y (position s) + 1))
     (tetromino s) = Ok true →
   ∀ next, tick s next = Ok (setGameOver true s)) ∧
  (board (setGameOver true s) = board s ∧
   score (setGameOver true s) = score s ∧
   position (setGameOver true s) = position s ∧
   tetromino (setGameOver true s) = tetromino s ∧
   tetrominoType (setGameOver true s) = tetrominoType s ∧
   speed (setGameOver true s) = speed s ∧
   isPaused (setGameOver true s) = isPaused s ∧
   gameOver (setGameOver true s) = true) ∧
  (∀ next, tick (setGameOver true s) next = Ok (setGameOver true s)) ∧
  (∀ fuel key, handleKeyPress fuel (setGameOver true s) key = Ok (setGameOver true s)) ∧
  (∀ fuel events, Forall isInput events →
     run fuel (setGameOver true s) events = Ok (setGameOver true s)) ∧
  (∀ next, gameOver (resetGame next (setGameOver true s)) = false).
Proof.
  intros (y & x & Hset & Hneg).
  assert (Hmerge : ∀ p next, mergeTetromino s p next = Ok (setGameOver true p)).
  { intros p next. unfold mergeTetromino.
    rewrite (mergeRows_negative (position s) (tetromino s) 0 _ y x Hset); [done|lia]. }
  split; [done|]. split.
  { intros Hover Hpaused E next. unfold tick, useInterval, intervalCallback, moveDown.
    rewrite Hover, Hpaused, E. simpl. apply Hmerge. }
  split; [done|]. split; [intros; by apply tick_gated; left|].
  split; [intros; by apply handleKeyPress_gated; left|].
  split; [intros; by apply run_gated; [left|]|done].
Qed.

Lemma mergeTetromino_topOut_witness :
  (∃ y x : nat, isSet (tetromino straddling) y x ∧ pos_y (position straddling) + y < 0) ∧
  (∀ p next, mergeTetromino straddling p next = Ok (setGameOver true p)) ∧
  (∀ next, tick straddling next = Ok (setGameOver true straddling)).
Proof.
  assert (H : ∃ y x : nat,
    isSet (tetromino straddling) y x ∧ pos_y (position straddling) + y < 0).
  { exists 0%nat, 0%nat. split; [|reflexivity]. exists [1; 1], 1. by repeat split. }
  split; [exact H|]. destruct (mergeTetromino_topOut straddling H) as (Hm & Ht & _).
  split; [exact Hm|]. apply Ht; reflexivity.
Defined.

(** C9: on a paused session every tick and every key press, and every run
    of them, leaves the whole session as it is; resuming changes the paused
    flag only, so the tick after it is the tick of the session as it was
    when paused: when a move down is legal there, the same piece, in the same
    orientation, one row lower. *)
Theorem paused_session_preserved (s : Session) (events : list Event) (fuel : nat) :
  isPaused s = true → Forall isInput events →
  (∀ next, tick s next = Ok s) ∧
  (∀ key, handleKeyPress fuel s key = Ok s) ∧
  run fuel s events = Ok s ∧
  (board (togglePause s) = board s ∧
   position (togglePause s) = position s ∧
   tetromino (togglePause s) = tetromino s ∧
   tetrominoType (togglePause s) = tetrominoType s ∧
   score (togglePause s) = score s ∧
   speed (togglePause s) = speed s ∧
   gameOver (togglePause s) = gameOver s ∧
   isPaused (togglePause s) = false) ∧
  (∀ next, run fuel s (events ++ [ClickPause; Tick next]) = tick (togglePause s) next) ∧
  (gameOver s = false →
   ∀ next, tick (togglePause s) next = intervalCallback (togglePause s) next) ∧
  (gameOver s = false →
   isColliding (board s) (mkPosition (pos_x (position s)) (pos_y (position s) + 1))
     (tetromino s) = Ok false →
   ∀ next, tick (togglePause s) next =
     Ok (mkSession (board s) (mkPosition (pos_x (position s)) (pos_y (position s) + 1))
           (tetromino s) (tetrominoType s) (score s) false false (speed s))).
Proof.
  intros Hpaused Hall.
  split; [intros; by apply tick_gated; right|].
  split; [intros; by apply handleKeyPress_gated; right|].
  split; [by apply run_gated; [right|]|].
  split; [unfold togglePause; rewrite Hpaused; by repeat split|].
  split.
  { intros next. rewrite run_app, run_gated by (done || by right).
    rewrite bind_Ok. simpl. by destruct (tick (togglePause s) next). }
  split.
  - intros Hover next. unfold tick, useInterval. simpl. by rewrite Hover, Hpaused.
  - intros Hover E next. unfold tick, useInterval, intervalCallback, moveDown. simpl.
    rewrite Hover, Hpaused, E. simpl.
    unfold setPosition, togglePause, setIsPaused. simpl. by rewrite Hover, Hpaused.
Qed.

Lemma paused_session_preserved_witness :
  isPaused (togglePause initialSession) = true ∧
  run 1 (togglePause initialSession)
    [Tick Kind.T; KeyDown ArrowLeft; KeyDown Space; Tick Kind.O]
    = Ok (togglePause initialSession) ∧
  tick (togglePause (togglePause initialSession)) Kind.T
    = Ok (mkSession createEmptyBoard (mkPosition 4 1) (TETROMINOES Kind.I) Kind.I
            (Int 0) false false INITIAL_SPEED).
Proof.
  assert (Hall : Forall isInput [Tick Kind.T; KeyDown ArrowLeft; KeyDown Space; Tick Kind.O]).
  { repeat constructor. }
  destruct (paused_session_preserved (togglePause initialSession) _ 1 eq_refl Hall)
    as (_ & _ & Hrun & _ & _ & _ & Htick).
  split; [reflexivity|]. split; [exact Hrun|].
  apply (Htick eq_refl eq_refl).
Defined.

(** ** Hard drop *)

(** C2, as amended: the hard drop only issues move-down steps and leaves the
    lock, clear and spawn sequence to the tick.  Whenever it returns, the
    board, score, tick interval, kind, orientation and flags are as before.
    On a falling session whose piece cannot move down it changes nothing,
    and the next tick is the merge of that piece; so with the O piece at
    (4, 18) on the empty board, the hard drop leaves the session as it is
    and the tick after it locks the piece with its bottom-left cell at
    (4, 19), spawns the next piece at (4, 0) and leaves the score 0. *)
Theorem hardDrop_leaves_lock_to_tick (s : Session) (fuel : nat) :
  gameOver s = false → isPaused s = false →
  isColliding (board s) (mkPosition (pos_x (position s)) (pos_y (position s) + 1))
    (tetromino s) = Ok true →
  handleKeyPress (S fuel) s Space = Ok s ∧
  (∀ next, tick s next = mergeTetromino s s next) ∧
  (∀ fuel' s0 s', handleKeyPress fuel' s0 Space = Ok s' →
     board s' = board s0 ∧ score s' = score s0 ∧ speed s' = speed s0 ∧
     tetromino s' = tetromino s0 ∧ tetrominoType s' = tetrominoType s0 ∧
     gameOver s' = gameOver s0 ∧ isPaused s' = isPaused s0) ∧
  (handleKeyPress (S fuel) restingO Space = Ok restingO ∧
   ∀ next, tick restingO next = Ok (lockedO next)).
Proof.
  intros Hover Hpaused E. split.
  { unfold handleKeyPress. rewrite Hover, Hpaused. by apply whileMoveDown_rest. }
  split.
  { intros next. unfold tick, useInterval, intervalCallback, moveDown.
    rewrite Hover, Hpaused, E. done. }
  split.
  { intros fuel' s0 s' H. unfold handleKeyPress in H.
    destruct (gameOver s0 || isPaused s0); [by injection H as <-|].
    by apply whileMoveDown_Ok in H as [-> _]. }
  split; [|done]. unfold handleKeyPress. by apply whileMoveDown_rest.
Qed.

Lemma hardDrop_leaves_lock_to_tick_witness :
  gameOver restingO = false ∧ isPaused restingO = false ∧
  isColliding (board restingO) (mkPosition 4 19) (tetromino restingO) = Ok true ∧
  handleKeyPress 1 restingO Space = Ok restingO ∧
  (∀ next, tick restingO next = mergeTetromino restingO restingO next).
Proof.
  split; [reflexivity|]. split; [reflexivity|]. split; [reflexivity|].
  destruct (hardDrop_leaves_lock_to_tick restingO 0 eq_refl eq_refl eq_refl)
    as (Hdrop & Htick & _).
  split; [exact Hdrop|exact Htick].
Defined.

(** C2, as stated, fails with the O piece at (4, 18) on the empty board,
    which a reset and eighteen ticks lead to and where no further move down
    is legal: the hard drop of the spec locks the
    piece and spawns the next one, the hard drop of the component returns
    the session as it is, with an empty board and the piece at (4, 18). *)
Lemma hardDrop_does_not_lock :
  run 0 initialSession (ClickReset Kind.O :: replicate 18 (Tick Kind.O)) = Ok restingO ∧
  spec_hard_drop 1 restingO Kind.T = Ok (lockedO Kind.T) ∧
  handleKeyPress 1 restingO Space = Ok restingO ∧
  board restingO = createEmptyBoard ∧
  position restingO = mkPosition 4 18 ∧
  handleKeyPress 1 restingO Space ≠ spec_hard_drop 1 restingO Kind.T ∧
  (∀ fuel next, handleKeyPress fuel restingO Space ≠ Ok (lockedO next)).
Proof.
  split; [reflexivity|].
  split; [reflexivity|]. split; [reflexivity|]. split; [reflexivity|].
  split; [reflexivity|]. split; [discriminate|].
  intros [|fuel] next; [discriminate|].
  change (Ok restingO ≠ Ok (lockedO next)). discriminate.
Qed.

(** The scenario of the spec starts from the spawn origin (4, 0): there the
    hard drop of the spec ends in [lockedO], while the loop of the component
    sees the same legal move at every iteration and does not end. *)
Lemma hardDrop_spawnedO :
  (∀ next, spec_hard_drop 19 spawnedO next = Ok (lockedO next)) ∧
  (∀ fuel, handleKeyPress fuel spawnedO Space = OutOfFuel).
Proof.
  split; [intros next; reflexivity|]. intros fuel.
  unfold handleKeyPress. simpl. by apply whileMoveDown_diverges.
Qed.

(** * Further properties of the code *)

(** ** The line loop on any board *)

Lemma delete_app_r {A : Type} (l1 l2 : list A) (i : nat) :
  delete (length l1 + i)%nat (l1 ++ l2) = l1 ++ delete i l2.
Proof. induction l1 as [|x l1 IH]; simpl; [done|]. by rewrite IH. Qed.

Lemma filter_delete_False {A : Type} (P : A → Prop) `{!∀ x, Decision (P x)}
    (l : list A) (i : nat) (x : A) :
  l !! i = Some x → ¬ P x → filter P (delete i l) = filter P l.
Proof.
  intros Hi HP. rewrite delete_take_drop.
  rewrite <- (take_drop_middle l i x Hi) at 3.
  rewrite !filter_app, (filter_cons_False _ x) by done. done.
Qed.

Lemma length_filter_delete_True {A : Type} (P : A → Prop) `{!∀ x, Decision (P x)}
    (l : list A) (i : nat) (x : A) :
  l !! i = Some x → P x →
  S (length (filter P (delete i l))) = length (filter P l).
Proof.
  intros Hi HP. rewrite delete_take_drop.
  rewrite <- (take_drop_middle l i x Hi) at 3.
  rewrite !filter_app, (filter_cons_True _ x) by done.
  rewrite !length_app. simpl. lia.
Qed.

(** The loop from index [n - 1] down, on a board that starts with [e] empty
    rows: it puts [m] more empty rows in front, keeps the other rows in their
    order, removes full rows only, and removes at most every other row. *)
Lemma clearLines_general (n : nat) :
  ∀ (e : nat) (c : Board) (k0 : nat),
    (n ≤ e + length c)%nat →
    ∃ (c' : Board) (m : nat),
      clearLines n (replicate e emptyRow ++ c) k0
        = Ok (replicate (e + m) emptyRow ++ c', (k0 + m)%nat) ∧
      sublist c' c ∧
      (length c' + m = length c)%nat ∧
      filter (λ row, every row = false) c' = filter (λ row, every row = false) c ∧
      (fullRows c' + m = fullRows c)%nat ∧
      (2 * m ≤ n - e + 1)%nat.
Proof.
  induction n as [|y IH]; intros e c k0 Hn.
  { exists c, 0%nat. simpl. rewrite !Nat.add_0_r. repeat split; (done || lia). }
  simpl. destruct (decide (y < e)%nat) as [Hy|Hy].
  - rewrite lookup_app_l by (rewrite length_replicate; lia).
    rewrite lookup_replicate_2 by done. rewrite every_emptyRow.
    destruct (IH e c k0) as (c' & m & E & Hsub & Hlen & Hfil & Hfull & Hm); [lia|].
    exists c', m. repeat split; (done || lia).
  - rewrite lookup_app_r by (rewrite length_replicate; lia). rewrite length_replicate.
    destruct (lookup_lt_is_Some_2 c (y - e)%nat) as [row Hrow]; [lia|]. rewrite Hrow.
    destruct (every row) eqn:Hevery.
    + replace (emptyRow :: delete y (replicate e emptyRow ++ c))
        with (replicate (S e) emptyRow ++ delete (y - e)%nat c).
      2:{ simpl. f_equal. replace y with (length (replicate e emptyRow) + (y - e))%nat at 2
            by (rewrite length_replicate; lia).
          by rewrite delete_app_r. }
      destruct (IH (S e) (delete (y - e)%nat c) (S k0))
        as (c' & m & E & Hsub & Hlen & Hfil & Hfull & Hm).
      { rewrite length_delete by eauto. lia. }
      exists c', (S m). rewrite length_delete in Hlen by eauto.
      replace (e + S m)%nat with (S e + m)%nat by lia.
      replace (k0 + S m)%nat with (S k0 + m)%nat by lia.
      split; [done|]. split; [by etrans; [|apply sublist_delete]|].
      split; [apply lookup_lt_Some in Hrow; lia|]. split.
      { rewrite Hfil. apply (filter_delete_False _ _ _ row); [done|]. by rewrite Hevery. }
      split; [|lia]. unfold fullRows in *.
      pose proof (length_filter_delete_True (λ row, every row = true) c (y - e)%nat row
                    Hrow Hevery). lia.
    + destruct (IH e c k0) as (c' & m & E & Hsub & Hlen & Hfil & Hfull & Hm); [lia|].
      exists c', m. repeat split; (done || lia).
Qed.

(** X1: on a board of at least BOARD_HEIGHT rows the line loop returns.  It
    leaves as many rows as it found: k empty rows, k being the count it
    reports, followed by rows of the board in their order; only full rows are
    gone, every row that is not full is kept, and the count is at most 10. *)
Theorem clearLines_keeps_rows (newBoard : Board) :
  (Z.to_nat BOARD_HEIGHT ≤ length newBoard)%nat →
  ∃ (kept : Board) (k : nat),
    clearLines (Z.to_nat BOARD_HEIGHT) newBoard 0 = Ok (replicate k emptyRow ++ kept, k) ∧
    sublist kept newBoard ∧
    (k + length kept = length newBoard)%nat ∧
    filter (λ row, every row = false) kept = filter (λ row, every row = false) newBoard ∧
    (fullRows kept + k = fullRows newBoard)%nat ∧
    (k ≤ 10)%nat.
Proof.
  intros Hlen.
  destruct (clearLines_general (Z.to_nat BOARD_HEIGHT) 0 newBoard 0)
    as (c' & m & E & Hsub & Hl & Hfil & Hfull & Hm); [simpl; lia|].
  exists c', m. split; [exact E|]. split; [done|]. split; [lia|].
  split; [done|]. split; [done|]. change (Z.to_nat BOARD_HEIGHT) with 20%nat in Hm. lia.
Qed.

Lemma clearLines_keeps_rows_witness :
  ∃ (kept : Board) (k : nat),
    clearLines (Z.to_nat BOARD_HEIGHT) (board fourRowsSession) 0
      = Ok (replicate k emptyRow ++ kept, k) ∧
    sublist kept (board fourRowsSession) ∧
    (k + length kept = length (board fourRowsSession))%nat ∧
    filter (λ row, every row = false) kept
      = filter (λ row, every row = false) (board fourRowsSession) ∧
    (fullRows kept + k = fullRows (board fourRowsSession))%nat ∧
    (k ≤ 10)%nat.
Proof. apply (clearLines_keeps_rows (board fourRowsSession)). vm_compute. lia. Defined.

(** With no full row directly above a full row, nothing the loop leaves is
    full. *)
Lemma clearLines_apart (n : nat) :
  ∀ (b : Board) (k0 : nat),
    (n ≤ length b)%nat →
    (∀ (i : nat) r r', (S i < n)%nat → b !! i = Some r → b !! S i = Some r' →
       every r' = true → every r = false) →
    (∀ (i : nat) r, (n ≤ i)%nat → b !! i = Some r → every r = false) →
    ∃ b' k, clearLines n b k0 = Ok (b', k) ∧ Forall (λ row, every row = false) b'.
Proof.
  induction n as [|y IH]; intros b k0 Hn Hadj Hsuf.
  { exists b, k0. split; [done|]. apply Forall_lookup_2. intros i r Hi.
    apply (Hsuf i); [lia|done]. }
  simpl. destruct (lookup_lt_is_Some_2 b y) as [row Hrow]; [lia|]. rewrite Hrow.
  destruct (every row) eqn:Hevery.
  - apply IH.
    + simpl. rewrite length_delete by eauto. lia.
    + intros [|i] r r' Hi Hr Hr' Hfull; simpl in Hr, Hr'.
      * injection Hr as <-. apply every_emptyRow.
      * rewrite list_lookup_delete_lt in Hr by lia.
        rewrite list_lookup_delete_lt in Hr' by lia.
        apply (Hadj i r r'); (done || lia).
    + intros [|i] r Hi Hr; simpl in Hr.
      * injection Hr as <-. apply every_emptyRow.
      * destruct (decide (i < y)%nat) as [Hlt|Hge].
        -- rewrite list_lookup_delete_lt in Hr by lia.
           assert (S i = y) as <- by lia. by apply (Hadj i r row); [lia|..].
        -- rewrite list_lookup_delete_ge in Hr by lia. apply (Hsuf (S i)); [lia|done].
  - apply IH; [lia| |].
    + intros i r r' Hi. apply Hadj. lia.
    + intros i r Hi Hr. destruct (decide (i = y)) as [->|Hne]; [congruence|].
      apply (Hsuf i); [lia|done].
Qed.

Lemma filter_Forall_id {A : Type} (P : A → Prop) `{!∀ x, Decision (P x)} (l : list A) :
  Forall P l → filter P l = l.
Proof.
  induction 1 as [|x l Hx _ IH]; [done|]. by rewrite filter_cons_True, IH.
Qed.

Lemma fullRows_none (b : Board) :
  Forall (λ row, every row = false) b → fullRows b = 0%nat.
Proof.
  unfold fullRows. induction 1 as [|row b Hrow _ IH]; [done|].
  rewrite filter_cons_False by (rewrite Hrow; discriminate). done.
Qed.

(** X2: when no full row lies directly above a full row, the line loop
    removes every full row: it reports their number and leaves that many
    empty rows followed by the rows that were not full, in their order. *)
Theorem clearLines_separated_rows (newBoard : Board) :
  length newBoard = Z.to_nat BOARD_HEIGHT →
  (∀ (i : nat) above below,
     newBoard !! i = Some above → newBoard !! S i = Some below →
     every below = true → every above = false) →
  clearLines (Z.to_nat BOARD_HEIGHT) newBoard 0
    = Ok (replicate (fullRows newBoard) emptyRow
            ++ filter (λ row, every row = false) newBoard,
          fullRows newBoard).
Proof.
  intros Hlen Hadj.
  destruct (clearLines_general (Z.to_nat BOARD_HEIGHT) 0 newBoard 0)
    as (c' & m & E & Hsub & Hl & Hfil & Hfull & Hm); [simpl; lia|].
  destruct (clearLines_apart (Z.to_nat BOARD_HEIGHT) newBoard 0) as (b' & k & E' & Hall).
  { lia. }
  { intros i r r' _. apply Hadj. }
  { intros i r Hi Hr. apply lookup_lt_Some in Hr. lia. }
  change (replicate 0 emptyRow ++ newBoard) with newBoard in E.
  rewrite E in E'. injection E' as <- <-.
  apply Forall_app in Hall as [_ Hall].
  rewrite (fullRows_none c' Hall) in Hfull. simpl in Hfull. subst m.
  rewrite <- Hfil, (filter_Forall_id _ c' Hall). exact E.
Qed.

Lemma clearLines_separated_rows_witness :
  clearLines (Z.to_nat BOARD_HEIGHT)
    (<[17%nat := replicate 10 (Num 1)]> (<[19%nat := replicate 10 (Num 1)]> createEmptyBoard)) 0
  = Ok (replicate 20 emptyRow, 2%nat).
Proof.
  etrans.
  - apply (clearLines_separated_rows
      (<[17%nat := replicate 10 (Num 1)]>
         (<[19%nat := replicate 10 (Num 1)]> createEmptyBoard))).
    + reflexivity.
    + intros i above below Ha Hb Hfull.
      assert (Hi : (S i < 20)%nat) by (apply lookup_lt_Some in Hb; exact Hb).
      do 19 (destruct i as [|i];
        [cbv in Ha, Hb; injection Ha as <-; injection Hb as <-;
         first [reflexivity | discriminate]|]).
      lia.
  - reflexivity.
Defined.

(** ** The cell loop writes the piece and nothing else *)

Lemma cellAt_write (b : Board) (r : nat) (row : Row) (i : Z) (ay ax : nat) :
  b !! r = Some row → 0 ≤ i < length row →
  cellAt (<[r := writeCell row i]> b) ay ax =
    if decide (ay = r ∧ ax = Z.to_nat i) then Some (Num 1) else cellAt b ay ax.
Proof.
  intros Hrow Hi. unfold cellAt, writeCell.
  destruct (i <? 0) eqn:E; [zbool; lia|].
  destruct (Z.to_nat i <? length row)%nat eqn:E'; [|apply Nat.ltb_ge in E'; lia].
  apply Nat.ltb_lt in E'.
  destruct (decide (ay = r)) as [->|Hne].
  - rewrite list_lookup_insert_eq by (by eapply lookup_lt_Some). rewrite Hrow. simpl.
    destruct (decide (ax = Z.to_nat i)) as [->|Hne].
    + rewrite list_lookup_insert_eq by done. by rewrite decide_True.
    + rewrite list_lookup_insert_ne by done. rewrite decide_False; [done|]. by intros [_ ?].
  - rewrite list_lookup_insert_ne by done. rewrite decide_False; [done|]. by intros [? _].
Qed.

Section MergeCells.
Variable pos : Position.

Lemma mergeRow_cells y cells :
  ∀ x0 b,
    wfBoard b →
    (∀ (j : nat) c, cells !! j = Some c → c ≠ 0 →
       0 ≤ pos_x pos + (x0 + j) < BOARD_WIDTH ∧ 0 ≤ pos_y pos + y < BOARD_HEIGHT) →
    ∃ b',
      mergeRow pos y cells x0 b = Ok (Written b') ∧ wfBoard b' ∧
      (∀ ay ax, cellAt b ay ax = Some (Num 1) → cellAt b' ay ax = Some (Num 1)) ∧
      (∀ (j : nat) c, cells !! j = Some c → c ≠ 0 →
         cellAt b' (Z.to_nat (pos_y pos + y)) (Z.to_nat (pos_x pos + (x0 + j)))
           = Some (Num 1)) ∧
      (∀ ay ax : nat,
         (∀ (j : nat) c, cells !! j = Some c → c ≠ 0 →
            ¬ (Z.of_nat ay = pos_y pos + y ∧ Z.of_nat ax = pos_x pos + (x0 + j))) →
         cellAt b' ay ax = cellAt b ay ax).
Proof.
  induction cells as [|c rest IH]; intros x0 b Hwf Hin; simpl.
  { exists b. split; [done|]. split; [done|]. split; [done|].
    split; [|done]. intros j c H. by rewrite lookup_nil in H. }
  assert (Hrest : ∀ (j : nat) c', rest !! j = Some c' → c' ≠ 0 →
    0 ≤ pos_x pos + (x0 + 1 + j) < BOARD_WIDTH ∧ 0 ≤ pos_y pos + y < BOARD_HEIGHT).
  { intros j c' Hj Hc'. replace (x0 + 1 + j) with (x0 + S j) by lia.
    by apply (Hin (S j) c'). }
  destruct (nonzero c) eqn:Hc.
  - apply nonzero_true in Hc. destruct (Hin 0%nat c eq_refl Hc) as [Hx Hy].
    destruct (pos_y pos + y <? 0) eqn:E; [zbool; lia|].
    pose proof Hwf as [Hlen Hrows]. unfold BOARD_HEIGHT, BOARD_WIDTH in *.
    destruct (lookup_lt_is_Some_2 b (Z.to_nat (pos_y pos + y))) as [row Hrow]; [lia|].
    rewrite Hrow.
    pose proof (Forall_lookup_1 _ _ _ _ Hrows Hrow) as Hw. simpl in Hw.
    assert (Hi : 0 ≤ pos_x pos + x0 < length row) by lia.
    set (b1 := <[Z.to_nat (pos_y pos + y) := writeCell row (pos_x pos + x0)]> b).
    assert (Hwf1 : wfBoard b1).
    { split; [unfold b1; by rewrite length_insert|].
      apply Forall_insert; [done|]. simpl. rewrite length_writeCell; [done|lia]. }
    destruct (IH (x0 + 1) b1 Hwf1 Hrest) as (b' & E' & Hwf' & Hkeep & Hset & Hother).
    exists b'. split; [done|]. split; [done|].
    assert (Hb1 : ∀ ay ax, cellAt b1 ay ax =
      if decide (ay = Z.to_nat (pos_y pos + y) ∧ ax = Z.to_nat (pos_x pos + x0))
      then Some (Num 1) else cellAt b ay ax).
    { intros ay ax. by apply cellAt_write. }
    split; [|split].
    + intros ay ax H. apply Hkeep. rewrite Hb1. by case_decide.
    + intros [|j] c' Hj Hc'.
      * apply Hkeep. rewrite Hb1. rewrite decide_True; [done|].
        split; [done|]. f_equal. lia.
      * replace (x0 + S j) with (x0 + 1 + j) by lia. by apply (Hset j c').
    + intros ay ax Hfree. rewrite Hother.
      * rewrite Hb1. rewrite decide_False; [done|]. intros [-> ->].
        apply (Hfree 0%nat c eq_refl Hc). lia.
      * intros j c' Hj Hc'. replace (x0 + 1 + j) with (x0 + S j) by lia.
        by apply (Hfree (S j) c').
  - apply nonzero_false in Hc.
    destruct (IH (x0 + 1) b Hwf Hrest) as (b' & E' & Hwf' & Hkeep & Hset & Hother).
    exists b'. split; [done|]. split; [done|]. split; [done|]. split.
    + intros [|j] c' Hj Hc'; [simpl in Hj; congruence|].
      replace (x0 + S j) with (x0 + 1 + j) by lia. by apply (Hset j c').
    + intros ay ax Hfree. apply Hother.
      intros j c' Hj Hc'. replace (x0 + 1 + j) with (x0 + S j) by lia.
      by apply (Hfree (S j) c').
Qed.

Lemma mergeRows_cells rows :
  ∀ y0 b,
    wfBoard b →
    (∀ i j : nat, isSet rows i j →
       0 ≤ pos_x pos + j < BOARD_WIDTH ∧ 0 ≤ pos_y pos + (y0 + i) < BOARD_HEIGHT) →
    ∃ b',
      mergeRows pos rows y0 b = Ok (Written b') ∧ wfBoard b' ∧
      (∀ ay ax, cellAt b ay ax = Some (Num 1) → cellAt b' ay ax = Some (Num 1)) ∧
      (∀ i j : nat, isSet rows i j →
         cellAt b' (Z.to_nat (pos_y pos + (y0 + i))) (Z.to_nat (pos_x pos + j))
           = Some (Num 1)) ∧
      (∀ ay ax : nat,
         (∀ i j : nat, isSet rows i j →
            ¬ (Z.of_nat ay = pos_y pos + (y0 + i) ∧ Z.of_nat ax = pos_x pos + j)) →
         cellAt b' ay ax = cellAt b ay ax).
Proof.
  induction rows as [|cells rest IH]; intros y0 b Hwf Hin; simpl.
  { exists b. split; [done|]. split; [done|]. split; [done|].
    split; [|done]. intros i j (cs & c & H & _). by rewrite lookup_nil in H. }
  destruct (mergeRow_cells y0 cells 0 b Hwf) as (b1 & E1 & Hwf1 & Hkeep1 & Hset1 & Hother1).
  { intros j c Hj Hc. replace (y0) with (y0 + 0%nat) by lia.
    replace (0 + j) with (Z.of_nat j) by lia. apply (Hin 0%nat j). by exists cells, c. }
  rewrite E1, bind_Ok.
  destruct (IH (y0 + 1) b1 Hwf1) as (b' & E' & Hwf' & Hkeep & Hset & Hother).
  { intros i j (cs & c & Hcs & Hc & Hne).
    replace (y0 + 1 + i) with (y0 + S i) by lia. apply Hin. by exists cs, c. }
  exists b'. split; [done|]. split; [done|]. split; [by auto|]. split.
  - intros [|i] j (cs & c & Hcs & Hc & Hne); simpl in Hcs.
    + injection Hcs as <-. apply Hkeep.
      replace (y0 + 0%nat) with y0 by lia.
      replace (Z.of_nat j) with (0 + j) by lia. by apply (Hset1 j c).
    + replace (y0 + S i) with (y0 + 1 + i) by lia. apply Hset. by exists cs, c.
  - intros ay ax Hfree. rewrite Hother, Hother1; [done| |].
    + intros j c Hj Hc. replace (0 + j) with (Z.of_nat j) by lia.
      replace y0 with (y0 + 0%nat) by lia. apply (Hfree 0%nat j). by exists cells, c.
    + intros i j (cs & c & Hcs & Hc & Hne).
      replace (y0 + 1 + i) with (y0 + S i) by lia. apply Hfree. by exists cs, c.
Qed.
End MergeCells.

(** X3: on a board of BOARD_HEIGHT rows of BOARD_WIDTH slots and for a piece
    inside the grid, the cell loop of the merge runs to its end; afterwards
    every slot under a set cell of the piece holds 1, every other slot holds
    what it held, and the dimensions are as before. *)
Theorem mergeRows_writes_piece (pos : Position) (t : TetrominoType) (newBoard : Board) :
  wfBoard newBoard → inGrid pos t →
  ∃ merged,
    mergeRows pos t 0 newBoard = Ok (Written merged) ∧
    wfBoard merged ∧
    (∀ y x : nat, isSet t y x →
       cellAt merged (Z.to_nat (pos_y pos + y)) (Z.to_nat (pos_x pos + x)) = Some (Num 1)) ∧
    (∀ ay ax : nat,
       (∀ y x : nat, isSet t y x →
          ¬ (Z.of_nat ay = pos_y pos + y ∧ Z.of_nat ax = pos_x pos + x)) →
       cellAt merged ay ax = cellAt newBoard ay ax).
Proof.
  intros Hwf Hin.
  destruct (mergeRows_cells pos t 0 newBoard Hwf) as (b' & E & Hwf' & _ & Hset & Hother).
  { intros i j Hset. replace (0 + i) with (Z.of_nat i) by lia. by apply Hin. }
  exists b'. split; [done|]. split; [done|]. split.
  - intros y x H. replace (pos_y pos + y) with (pos_y pos + (0 + y)) by lia. by apply Hset.
  - intros ay ax Hfree. apply Hother. intros i j H.
    replace (0 + i) with (Z.of_nat i) by lia. by apply Hfree.
Qed.

Lemma mergeRows_writes_piece_witness :
  ∃ merged,
    mergeRows (mkPosition 4 18) (TETROMINOES Kind.O) 0 createEmptyBoard
      = Ok (Written merged) ∧
    wfBoard merged ∧
    (∀ y x : nat, isSet (TETROMINOES Kind.O) y x →
       cellAt merged (Z.to_nat (pos_y (mkPosition 4 18) + y))
         (Z.to_nat (pos_x (mkPosition 4 18) + x)) = Some (Num 1)) ∧
    (∀ ay ax : nat,
       (∀ y x : nat, isSet (TETROMINOES Kind.O) y x →
          ¬ (Z.of_nat ay = pos_y (mkPosition 4 18) + y ∧
             Z.of_nat ax = pos_x (mkPosition 4 18) + x)) →
       cellAt merged ay ax = cellAt createEmptyBoard ay ax).
Proof.
  apply (mergeRows_writes_piece (mkPosition 4 18) (TETROMINOES Kind.O) createEmptyBoard).
  - apply wfBoard_createEmptyBoard.
  - intros y x Hset. apply isSet_TETROMINOES in Hset as Hb.
    destruct Hset as (cells & c & Hcells & Hc & _).
    assert (y < 2)%nat by (apply lookup_lt_Some in Hcells; exact Hcells).
    unfold BOARD_WIDTH, BOARD_HEIGHT. simpl. lia.
Defined.

(** ** What play keeps: slots, tick interval, score, orientation *)

Lemma spread_bits (row : Row) : Forall bit row → spread row = row.
Proof.
  unfold spread. induction 1 as [|c row Hc _ IH]; [done|].
  rewrite fmap_cons, IH. by destruct Hc as [-> | ->].
Qed.

Lemma spread_bitBoard (b : Board) : bitBoard b → spread <$> b = b.
Proof.
  induction 1 as [|row b Hrow _ IH]; [done|].
  by rewrite fmap_cons, IH, spread_bits.
Qed.

Lemma writeCell_inside (row : Row) (i : Z) :
  0 ≤ i < length row → writeCell row i = <[Z.to_nat i := Num 1]> row.
Proof.
  intros Hi. unfold writeCell. destruct (i <? 0) eqn:E; [zbool; lia|].
  destruct (Z.to_nat i <? length row)%nat eqn:E'; [done|].
  apply Nat.ltb_ge in E'. lia.
Qed.

Lemma mergeRow_bits (pos : Position) y cells :
  ∀ x0 b b',
    wfBoard b → bitBoard b →
    (∀ (j : nat) c, cells !! j = Some c → c ≠ 0 →
       0 ≤ pos_x pos + (x0 + j) < BOARD_WIDTH ∧ 0 ≤ pos_y pos + y < BOARD_HEIGHT) →
    mergeRow pos y cells x0 b = Ok (Written b') → wfBoard b' ∧ bitBoard b'.
Proof.
  induction cells as [|c rest IH]; intros x0 b b' Hwf Hbits Hin H; simpl in H.
  { by injection H as <-. }
  assert (Hrest : ∀ (j : nat) c', rest !! j = Some c' → c' ≠ 0 →
    0 ≤ pos_x pos + (x0 + 1 + j) < BOARD_WIDTH ∧ 0 ≤ pos_y pos + y < BOARD_HEIGHT).
  { intros j c' Hj Hc'. replace (x0 + 1 + j) with (x0 + S j) by lia.
    by apply (Hin (S j) c'). }
  destruct (nonzero c) eqn:Hc; [|by apply (IH (x0 + 1) b)].
  apply nonzero_true in Hc. destruct (Hin 0%nat c eq_refl Hc) as [Hx Hy].
  destruct (pos_y pos + y <? 0) eqn:E; [zbool; lia|].
  destruct (b !! Z.to_nat (pos_y pos + y)) as [row|] eqn:Hrow; [|discriminate].
  pose proof Hwf as [Hlen Hrows]. unfold BOARD_HEIGHT, BOARD_WIDTH in *.
  pose proof (Forall_lookup_1 _ _ _ _ Hrows Hrow) as Hw. simpl in Hw.
  rewrite writeCell_inside in H by lia.
  apply (IH (x0 + 1)) in H; [done| | |done].
  - split; [by rewrite length_insert|]. apply Forall_insert; [done|].
    simpl. by rewrite length_insert.
  - apply Forall_insert; [done|]. apply Forall_insert; [|by right].
    apply (Forall_lookup_1 _ _ _ _ Hbits Hrow).
Qed.

Lemma mergeRows_bits (pos : Position) rows :
  ∀ y0 b b',
    wfBoard b → bitBoard b →
    (∀ i j : nat, isSet rows i j →
       0 ≤ pos_x pos + j < BOARD_WIDTH ∧ 0 ≤ pos_y pos + (y0 + i) < BOARD_HEIGHT) →
    mergeRows pos rows y0 b = Ok (Written b') → wfBoard b' ∧ bitBoard b'.
Proof.
  induction rows as [|cells rest IH]; intros y0 b b' Hwf Hbits Hin H; simpl in H.
  { by injection H as <-. }
  destruct (mergeRow pos y0 cells 0 b) as [[b1|]| |] eqn:E; simpl in H; try discriminate.
  apply (mergeRow_bits pos y0 cells 0 b b1 Hwf Hbits) in E as [Hwf1 Hbits1].
  - apply (IH (y0 + 1) b1 b' Hwf1 Hbits1); [|done].
    intros i j (cs & c & Hcs & Hc & Hne).
    replace (y0 + 1 + i) with (y0 + S i) by lia. apply Hin. by exists cs, c.
  - intros j c Hj Hc. replace (y0) with (y0 + 0%nat) by lia.
    replace (0 + j) with (Z.of_nat j) by lia. apply (Hin 0%nat j). by exists cells, c.
Qed.

Lemma bit_emptyRow : Forall bit emptyRow.
Proof. apply Forall_replicate. by left. Qed.

Lemma clearLines_bits (n : nat) :
  ∀ b k0 b' k, bitBoard b → clearLines n b k0 = Ok (b', k) → bitBoard b'.
Proof.
  induction n as [|y IH]; intros b k0 b' k Hbits H; simpl in H.
  { by injection H as <- _. }
  destruct (b !! y) as [row|]; [|discriminate].
  destruct (every row); [|by eapply IH].
  eapply IH; [|exact H]. apply Forall_cons. split; [apply bit_emptyRow|].
  by apply Forall_delete.
Qed.

(** The session a merge leaves, when the piece is inside the grid of a
    well-formed board. *)
Lemma mergeTetromino_result (s p : Session) (next : Kind.t) :
  wfBoard (board s) → inGrid (position s) (tetromino s) →
  ∃ merged cleared (k : nat),
    mergeRows (position s) (tetromino s) 0 (spread <$> board s) = Ok (Written merged) ∧
    clearLines (Z.to_nat BOARD_HEIGHT) merged 0 = Ok (cleared, k) ∧
    mergeTetromino s p next =
      Ok (mkSession cleared (mkPosition 4 0) (TETROMINOES next) next
            (if (0 <? k)%nat then add (score p) (pointsTable !! k) else score p)
            (gameOver p) (isPaused p)
            (if (0 <? k)%nat then Z.max 100 (speed p - 10) else speed p)).
Proof.
  intros Hwf Hin. unfold mergeTetromino.
  destruct (mergeRows_wf (position s) (tetromino s) 0 (spread <$> board s))
    as (b1 & E1 & Hwf1); [by apply wfBoard_spread|..].
  { intros i j Hset. replace (0 + i) with (Z.of_nat i) by lia. by apply Hin. }
  destruct (clearLines_wf (Z.to_nat BOARD_HEIGHT) b1 0 Hwf1) as (b2 & k & E2 & Hwf2); [done|].
  exists b1, b2, k. split; [done|]. split; [done|].
  rewrite E1, bind_Ok, E2, bind_Ok. by destruct (0 <? k)%nat.
Qed.

Lemma scoreOK_add (prev : number) (k : nat) :
  scoreOK prev → scoreOK (add prev (pointsTable !! k)).
Proof.
  intros [->|(n & Hn & ->)]; [by left|].
  destruct k as [|[|[|[|[|k]]]]]; simpl; try (by left); right.
  - exists n. split; [lia|f_equal; lia].
  - exists (n + 1). split; [lia|f_equal; lia].
  - exists (n + 3). split; [lia|f_equal; lia].
  - exists (n + 5). split; [lia|f_equal; lia].
  - exists (n + 8). split; [lia|f_equal; lia].
Qed.

Lemma rotations_S_end (n : nat) :
  ∀ t, rotations (S n) t = (t' ← rotations n t; rotated t').
Proof.
  induction n as [|n IH]; intros t.
  - simpl. by destruct (rotated t).
  - change (rotations (S (S n)) t) with (t' ← rotated t; rotations (S n) t').
    change (rotations (S n) t) with (t' ← rotated t; rotations n t').
    destruct (rotated t) as [t1| |]; [|reflexivity..].
    rewrite !bind_Ok. apply IH.
Qed.

Lemma orientationOf_rotated (k : Kind.t) (t r : TetrominoType) :
  orientationOf k t → rotated t = Ok r → orientationOf k r.
Proof.
  intros (n & Hn & E) Hr.
  assert (E' : rotations (S n) (TETROMINOES k) = Ok r).
  { rewrite rotations_S_end, E. exact Hr. }
  destruct (decide (S n = 4)%nat) as [Hfour|Hless].
  - exists 0%nat. split; [lia|]. rewrite Hfour in E'.
    destruct (TETROMINOES_rect k) as (r' & c' & Hk & Hr' & Hc').
    rewrite (rotations_four_rect r' c') in E' by (done || lia). exact E'.
  - exists (S n). split; [lia|done].
Qed.

Lemma playInvariant_initialSession : playInvariant initialSession.
Proof.
  split; [apply Forall_replicate, bit_emptyRow|]. split; [done|].
  split; [right; exists 0; by split|]. exists 0%nat. by split; [lia|].
Qed.

Lemma handleKeyPress_playInvariant (fuel : nat) (s s' : Session) (key : Key) :
  playInvariant s → handleKeyPress fuel s key = Ok s' → playInvariant s'.
Proof.
  intros Hinv H. unfold handleKeyPress in H.
  destruct (gameOver s || isPaused s); [by injection H as <-|].
  destruct key; simpl in H.
  - unfold moveHorizontal in H.
    destruct (isColliding (board s) _ (tetromino s)) as [[|]| |]; simpl in H;
      try discriminate; by injection H as <-.
  - unfold moveHorizontal in H.
    destruct (isColliding (board s) _ (tetromino s)) as [[|]| |]; simpl in H;
      try discriminate; by injection H as <-.
  - unfold moveDown in H.
    destruct (isColliding (board s) _ (tetromino s)) as [[|]| |]; simpl in H;
      try discriminate; by injection H as <-.
  - unfold rotate in H. destruct (rotated (tetromino s)) as [r| |] eqn:Er; simpl in H;
      try discriminate.
    destruct (isColliding (board s) (position s) r) as [[|]| |]; simpl in H;
      try discriminate; injection H as <-; [done|].
    destruct Hinv as (Hbits & Hspeed & Hscore & Hor).
    split; [done|]. split; [done|]. split; [done|].
    by apply (orientationOf_rotated _ (tetromino s)).
  - by apply whileMoveDown_Ok in H as [-> _].
  - by injection H as <-.
Qed.

Lemma tick_playInvariant (s s' : Session) (next : Kind.t) :
  invariant s → playInvariant s → tick s next = Ok s' → playInvariant s'.
Proof.
  intros (Hwf & Hin & Hy & Hover) Hplay H. pose proof Hplay as (Hbits & Hspeed & Hscore & Hor).
  unfold tick, useInterval in H.
  destruct (negb (gameOver s) && negb (isPaused s)); [|by injection H as <-].
  unfold intervalCallback, moveDown in H.
  destruct (isColliding (board s) _ (tetromino s)) as [[|]| |] eqn:E; simpl in H;
    try discriminate; [|by injection H as <-].
  destruct (mergeTetromino_result s s next Hwf Hin) as (merged & cleared & k & E1 & E2 & E3).
  rewrite E3 in H. injection H as <-.
  rewrite (spread_bitBoard _ Hbits) in E1.
  apply (mergeRows_bits _ _ _ _ _ Hwf Hbits) in E1 as [Hwf1 Hbits1].
  2:{ intros i j Hset. replace (0 + i) with (Z.of_nat i) by lia. by apply Hin. }
  split; [by eapply clearLines_bits|]. split; [|split].
  - simpl. unfold INITIAL_SPEED in *. destruct (0 <? k)%nat; lia.
  - simpl. destruct (0 <? k)%nat; [by apply scoreOK_add|done].
  - exists 0%nat. by split; [lia|].
Qed.

Lemma step_playInvariant (fuel : nat) (s s' : Session) (e : Event) :
  invariant s → playInvariant s → step fuel s e = Ok s' → playInvariant s'.
Proof.
  intros Hinv Hplay H. destruct e as [key|next| |next]; simpl in H.
  - by eapply handleKeyPress_playInvariant.
  - by eapply tick_playInvariant.
  - by injection H as <-.
  - injection H as <-. split; [apply Forall_replicate, bit_emptyRow|].
    split; [done|]. split; [right; exists 0; by split|]. exists 0%nat. by split; [lia|].
Qed.

Lemma run_playInvariant (fuel : nat) (events : list Event) :
  ∀ s s', invariant s → playInvariant s → run fuel s events = Ok s' → playInvariant s'.
Proof.
  induction events as [|e rest IH]; intros s s' Hinv Hplay H; simpl in H.
  - by injection H as <-.
  - destruct (step fuel s e) as [s1| |] eqn:E; simpl in H; try discriminate.
    apply (IH s1); [by eapply step_invariant|by eapply step_playInvariant|done].
Qed.

(** ** The board on every render *)

Lemma orientationOf_isSet (k : Kind.t) (t : TetrominoType) :
  orientationOf k t → ∃ i j : nat, isSet t i j.
Proof.
  intros (n & Hn & E).
  assert (Hcell : ∀ (i j : nat) cells c,
    t !! i = Some cells → cells !! j = Some c → c ≠ 0 → ∃ i j : nat, isSet t i j).
  { intros i j cells c H1 H2 H3. by exists i, j, cells, c. }
  destruct k;
    do 4 (destruct n as [|n];
      [vm_compute in E; injection E as <-;
       first [by eapply (Hcell 0%nat 0%nat) | by eapply (Hcell 0%nat 1%nat)
             | by eapply (Hcell 0%nat 2%nat)]|]);
    lia.
Qed.

Lemma writeCell_bits (row : Row) (i : Z) :
  Forall bit row → i ≤ length row →
  Forall bit (writeCell row i) ∧
  (length row ≤ length (writeCell row i))%nat ∧
  i + 1 ≤ length (writeCell row i).
Proof.
  intros Hbits Hi. unfold writeCell.
  destruct (i <? 0) eqn:E.
  { apply Z.ltb_lt in E. split; [done|]. split; lia. }
  apply Z.ltb_ge in E.
  destruct (Z.to_nat i <? length row)%nat eqn:E'.
  - apply Nat.ltb_lt in E'. rewrite length_insert.
    split; [apply Forall_insert; [done|by right]|]. split; lia.
  - apply Nat.ltb_ge in E'.
    replace (Z.to_nat i - length row)%nat with 0%nat by lia. simpl.
    rewrite length_app. simpl.
    split; [apply Forall_app_2; [done|]; apply Forall_cons; split; [by right|done]|].
    split; lia.
Qed.

Lemma mergeRow_fits (pos : Position) y cells :
  ∀ x0 b b',
    wideBoard b → bitBoard b →
    (∀ c row, cells !! 0%nat = Some c → c ≠ 0 →
       b !! Z.to_nat (pos_y pos + y) = Some row → pos_x pos + x0 ≤ length row) →
    (∀ (j : nat) c, cells !! S j = Some c → c ≠ 0 →
       pos_x pos + (x0 + S j) ≤ BOARD_WIDTH ∨ ∃ c', cells !! j = Some c' ∧ c' ≠ 0) →
    mergeRow pos y cells x0 b = Ok (Written b') → wideBoard b' ∧ bitBoard b'.
Proof.
  induction cells as [|c rest IH]; intros x0 b b' Hwide Hbits Hfirst Hnext H; simpl in H.
  { by injection H as <-. }
  assert (Hnext' : ∀ (j : nat) c', rest !! S j = Some c' → c' ≠ 0 →
    pos_x pos + (x0 + 1 + S j) ≤ BOARD_WIDTH ∨ ∃ c'', rest !! j = Some c'' ∧ c'' ≠ 0).
  { intros j c' Hj Hc'. destruct (Hnext (S j) c' Hj Hc') as [Hle|Hprev]; [left; lia|by right]. }
  destruct Hwide as [Hlen Hrows].
  destruct (nonzero c) eqn:Hc.
  - apply nonzero_true in Hc.
    destruct (pos_y pos + y <? 0) eqn:Hy; [discriminate|].
    destruct (b !! Z.to_nat (pos_y pos + y)) as [row|] eqn:Hrow; [|discriminate].
    pose proof (Hfirst c row eq_refl Hc eq_refl) as Hi.
    pose proof (Forall_lookup_1 _ _ _ _ Hbits Hrow) as Hrowbits.
    pose proof (Forall_lookup_1 _ _ _ _ Hrows Hrow) as Hroww. simpl in Hroww.
    destruct (writeCell_bits row (pos_x pos + x0) Hrowbits Hi) as (Hb' & Hlen' & Hend).
    apply (IH (x0 + 1)) in H; [exact H| | | |exact Hnext'].
    + split; [by rewrite length_insert|]. apply Forall_insert; [done|]. simpl. lia.
    + by apply Forall_insert.
    + intros c' row' _ _ Hrow'.
      rewrite list_lookup_insert_eq in Hrow' by (by eapply lookup_lt_Some).
      injection Hrow' as <-. lia.
  - apply nonzero_false in Hc.
    apply (IH (x0 + 1) b b'); [done|done| |exact Hnext'|exact H].
    intros c' row' Hc' Hne Hrow'.
    pose proof (Forall_lookup_1 _ _ _ _ Hrows Hrow') as Hroww. simpl in Hroww.
    destruct (Hnext 0%nat c' Hc' Hne) as [Hle|(c'' & Hc'' & Hne'')].
    + unfold BOARD_WIDTH in *. lia.
    + injection Hc'' as <-. done.
Qed.

Lemma mergeRows_fits (pos : Position) rows :
  ∀ y0 b b',
    wideBoard b → bitBoard b → fits pos rows →
    mergeRows pos rows y0 b = Ok (Written b') → wideBoard b' ∧ bitBoard b'.
Proof.
  induction rows as [|cells rest IH]; intros y0 b b' Hwide Hbits Hfits H; simpl in H.
  { by injection H as <-. }
  destruct (mergeRow pos y0 cells 0 b) as [[b1|]| |] eqn:E; simpl in H; try discriminate.
  apply (mergeRow_fits pos y0 cells 0 b b1 Hwide Hbits) in E as [Hwide1 Hbits1].
  - apply (IH (y0 + 1) b1 b' Hwide1 Hbits1); [|done].
    intros i cs Hcs. by apply (Hfits (S i) cs).
  - intros c row Hc Hne Hrow. destruct Hwide as [_ Hrows].
    pose proof (Forall_lookup_1 _ _ _ _ Hrows Hrow) as Hroww. simpl in Hroww.
    destruct (Hfits 0%nat cells eq_refl 0%nat c Hc Hne) as [Hle|(j' & _ & Hj & _)];
      [unfold BOARD_WIDTH in *; lia|discriminate].
  - intros j c Hc Hne.
    destruct (Hfits 0%nat cells eq_refl (S j) c Hc Hne) as [Hle|(j' & c' & Hj & Hc' & Hne')].
    + left. lia.
    + right. injection Hj as <-. by exists c'.
Qed.

Lemma clearLines_wide (n : nat) :
  ∀ b k0 b' k, wideBoard b → clearLines n b k0 = Ok (b', k) → wideBoard b'.
Proof.
  induction n as [|y IH]; intros b k0 b' k Hwide H; simpl in H.
  { by injection H as <- _. }
  destruct (b !! y) as [row|] eqn:Hrow; [|discriminate].
  destruct (every row); [|by eapply IH].
  eapply IH; [|exact H]. destruct Hwide as [Hlen Hrows]. split.
  - simpl. rewrite length_delete by eauto. apply lookup_lt_Some in Hrow. lia.
  - apply Forall_cons. split; [unfold emptyRow; by rewrite length_replicate|].
    by apply Forall_delete.
Qed.

Lemma wideBoard_createEmptyBoard : wideBoard createEmptyBoard.
Proof.
  unfold createEmptyBoard, emptyRow.
  split; [by rewrite length_replicate|]. apply Forall_replicate. by rewrite length_replicate.
Qed.

Lemma fits_inside (q : Position) (t : TetrominoType) :
  (∀ i j : nat, isSet t i j → pos_x q + j ≤ BOARD_WIDTH) → fits q t.
Proof. intros H i cells Hcells j c Hj Hc. left. apply (H i j). by exists cells, c. Qed.

Lemma fits_TETROMINOES (k : Kind.t) (q : Position) :
  pos_x q < BOARD_WIDTH → fits q (TETROMINOES k).
Proof.
  intros Hx i cells Hcells j c Hj Hc. unfold BOARD_WIDTH in *.
  destruct k; destruct i as [|[|[|i]]]; simpl in Hcells; try discriminate;
    injection Hcells as <-;
    destruct j as [|[|[|[|j]]]]; simpl in Hj; try discriminate;
    injection Hj as <-; try lia;
    first [ left; simpl; lia
          | right; eexists _, _; split; [reflexivity|]; split; [reflexivity|lia] ].
Qed.

Lemma orientationOf_width (k : Kind.t) (t : TetrominoType) :
  orientationOf k t → ∀ i j : nat, isSet t i j → (j < 4)%nat.
Proof.
  intros (n & Hn & E) i j (cells & c & Hcells & Hc & _).
  apply lookup_lt_Some in Hc.
  destruct k;
    do 4 (destruct n as [|n];
      [vm_compute in E; injection E as <-;
       destruct i as [|[|[|[|i]]]]; simpl in Hcells; try discriminate;
       injection Hcells as <-; simpl in Hc; lia|]);
    lia.
Qed.

Lemma renderInvariant_initialSession : renderInvariant initialSession.
Proof.
  split; [apply wideBoard_createEmptyBoard|].
  split; [apply Forall_replicate, bit_emptyRow|].
  split; [by apply (fits_TETROMINOES Kind.I)|].
  split; [done|]. split; [done|].
  split; [exists Kind.I, 0%nat; by split; [lia|]|].
  split; [done|]. split; [right; exists 0; by split|done].
Qed.

Lemma pendingInvariant_start (s : Session) : renderInvariant s → pendingInvariant s s.
Proof.
  intros (Hwide & Hbits & _ & _ & _ & _ & Hspeed & Hscore & Hover).
  split; [done|]. split; [done|]. split; [by left|]. split; [by left|done].
Qed.

Lemma stepOn_pendingInvariant (fuel : nat) (s p p' : Session) (e : Event) :
  renderInvariant s → pendingInvariant s p → stepOn fuel s p e = Ok p' →
  pendingInvariant s p'.
Proof.
  intros (Hwide & Hbits & Hfits & Hx & Hy & Hor & _)
    (Hwidep & Hbitsp & Hmask & Hpos & Hspeed & Hscore & Hover) Hstep.
  destruct (stepOn_Ok fuel s p p' e Hstep)
    as [->|[(q & E & Hqx & Hqy & ->)|[(r & Er & E & ->)|[[Hm _]|
        [(merged & cleared & k & next & Em & Ec & ->)|[->|[next ->]]]]]]].
  - done.
  - split; [done|]. split; [done|]. split; [done|]. split; [|done]. right; right. done.
  - split; [done|]. split; [done|]. split; [|done]. right; right. done.
  - destruct (mergeRows_not_TopOut (position s) (tetromino s) 0 (spread <$> board s));
      [lia|done].
  - rewrite (spread_bitBoard _ Hbits) in Em.
    apply (mergeRows_fits _ _ _ _ _ Hwide Hbits Hfits) in Em as [Hwide1 Hbits1].
    split; [by eapply clearLines_wide|]. split; [by eapply clearLines_bits|].
    split; [right; left; by exists next|]. split; [right; by left|].
    simpl. split; [|split; [|done]].
    + destruct (0 <? k)%nat; unfold INITIAL_SPEED in *; lia.
    + destruct (0 <? k)%nat; [by apply scoreOK_add|done].
  - done.
  - split; [apply wideBoard_createEmptyBoard|].
    split; [apply Forall_replicate, bit_emptyRow|].
    split; [right; left; by exists next|]. split; [right; by left|].
    simpl. split; [done|]. split; [right; exists 0; by split|done].
Qed.

Lemma pendingInvariant_end (s p : Session) :
  renderInvariant s → pendingInvariant s p → renderInvariant p.
Proof.
  intros (Hwide & Hbits & Hfits & Hx & Hy & [k Hor] & _)
    (Hwidep & Hbitsp & Hmask & Hpos & Hspeed & Hscore & Hover).
  assert (Hlen : (Z.to_nat BOARD_HEIGHT ≤ length (board s))%nat) by (destruct Hwide; lia).
  assert (Horp : ∃ k', orientationOf k' (tetromino p)).
  { destruct Hmask as [->|[[next ->]|[Er _]]].
    - by exists k.
    - exists next, 0%nat. by split; [lia|].
    - exists k. by apply (orientationOf_rotated k (tetromino s)). }
  assert (Hyp : 0 ≤ pos_y (position p)).
  { destruct Hpos as [->|[->|(_ & _ & Hq)]]; [done|done|lia]. }
  assert (Hlegal : ∀ q, 0 ≤ pos_y q →
    isColliding (board s) q (tetromino s) = Ok false → pos_x q < BOARD_WIDTH).
  { intros q Hq E. destruct (orientationOf_isSet k (tetromino s) Hor) as (i & j & Hset).
    destruct (isColliding_false_inGrid (board s) q (tetromino s) Hlen Hq E i j Hset)
      as [Hin _]. lia. }
  assert (Hxp : pos_x (position p) < BOARD_WIDTH).
  { destruct Hpos as [->|[->|(E & _ & Hq)]]; [done|done|]. apply Hlegal; [lia|done]. }
  split; [done|]. split; [done|]. split; [|done].
  destruct Hmask as [->|[[next ->]|[Er E]]].
  - destruct Hpos as [->|[->|(E & _ & Hq)]]; [done| |].
    + apply fits_inside. intros i j Hset.
      pose proof (orientationOf_width k _ Hor i j Hset). unfold BOARD_WIDTH. simpl. lia.
    + apply fits_inside. intros i j Hset.
      destruct (isColliding_false_inGrid (board s) (position p) (tetromino s) Hlen Hyp E
                  i j Hset) as [Hin _].
      lia.
  - by apply fits_TETROMINOES.
  - apply fits_inside. intros i j Hset.
    destruct (isColliding_false_inGrid (board s) _ _ Hlen Hy E i j Hset) as [Hin _].
    destruct Hpos as [->|[->|(_ & Hq & _)]]; [lia| |lia].
    assert (Hr : orientationOf k (tetromino p))
      by (by apply (orientationOf_rotated k (tetromino s))).
    pose proof (orientationOf_width k _ Hr i j Hset). unfold BOARD_WIDTH. simpl. lia.
Qed.

Lemma reachable_renderInvariant (s : Session) : reachable s → renderInvariant s.
Proof.
  induction 1 as [|s events fuel s' _ IH Hbatch]; [apply renderInvariant_initialSession|].
  apply (pendingInvariant_end s s' IH).
  apply (batch_records fuel (pendingInvariant s) s) in Hbatch;
    [done| |by apply pendingInvariant_start].
  intros p p' e Hp Hstep. by apply (stepOn_pendingInvariant fuel s p p' e).
Qed.

(** X4: in every reachable session each slot of the board holds the number 0
    or the number 1, no hole and no undefined; so the row copies the merge
    starts from are equal to the rows of the board. *)
Theorem reachable_board_bits (s : Session) :
  reachable s →
  (∀ (ay ax : nat) c, cellAt (board s) ay ax = Some c → c = Num 0 ∨ c = Num 1) ∧
  spread <$> board s = board s.
Proof.
  intros Hreach. destruct (reachable_renderInvariant s Hreach) as (_ & Hbits & _).
  split; [|by apply spread_bitBoard].
  intros ay ax c H. unfold cellAt in H.
  destruct (board s !! ay) as [row|] eqn:Hrow; simpl in H; [|discriminate].
  pose proof (Forall_lookup_1 _ _ _ _ Hbits Hrow) as Hr.
  apply (Forall_lookup_1 _ _ _ _ Hr H).
Qed.

Lemma reachable_board_bits_witness :
  reachable twoRowsSession ∧
  (∀ (ay ax : nat) c, cellAt (board twoRowsSession) ay ax = Some c → c = Num 0 ∨ c = Num 1) ∧
  spread <$> board twoRowsSession = board twoRowsSession.
Proof.
  assert (H : reachable twoRowsSession).
  { apply (run_reachable 0 twoRowsGame initialSession); [exact reachable_init|].
    vm_compute. reflexivity. }
  split; [exact H|]. exact (reachable_board_bits twoRowsSession H).
Defined.

(** X5: in every reachable session the tick interval lies between 100 and
    INITIAL_SPEED, and the score is NaN or a multiple of 100 that is not
    negative. *)
Theorem reachable_speed_score (s : Session) :
  reachable s →
  100 ≤ speed s ≤ INITIAL_SPEED ∧
  (score s = NaN ∨ ∃ k, 0 ≤ k ∧ score s = Int (100 * k)).
Proof.
  intros Hreach.
  destruct (reachable_renderInvariant s Hreach) as (_ & _ & _ & _ & _ & _ & Hspeed & Hscore & _).
  by split.
Qed.

Lemma reachable_speed_score_witness :
  reachable initialSession ∧
  100 ≤ speed initialSession ≤ INITIAL_SPEED ∧
  (score initialSession = NaN ∨ ∃ k, 0 ≤ k ∧ score initialSession = Int (100 * k)).
Proof.
  split; [exact reachable_init|]. exact (reachable_speed_score initialSession reachable_init).
Defined.

(** ** Points and tick interval of a lock *)

(** X7: the merge of a piece inside the grid of a well-formed board clears
    k <= 10 lines.  With k = 0 the score and the tick interval stay; with
    k >= 1 the interval becomes max(100, interval - 10); the score grows by
    100, 300, 500 or 800 for k = 1, 2, 3, 4 and becomes NaN for k > 4, the
    points table having no entry there; a score that is NaN stays NaN. *)
Theorem mergeTetromino_points (s p : Session) (next : Kind.t) :
  wfBoard (board s) → inGrid (position s) (tetromino s) →
  ∃ merged s' (k : nat),
    mergeRows (position s) (tetromino s) 0 (spread <$> board s) = Ok (Written merged) ∧
    clearLines (Z.to_nat BOARD_HEIGHT) merged 0 = Ok (board s', k) ∧
    mergeTetromino s p next = Ok s' ∧
    (k ≤ 10)%nat ∧
    (k = 0%nat → score s' = score p ∧ speed s' = speed p) ∧
    ((0 < k)%nat → speed s' = Z.max 100 (speed p - 10)) ∧
    (∀ n, score p = Int n →
       (k = 1%nat → score s' = Int (n + 100)) ∧
       (k = 2%nat → score s' = Int (n + 300)) ∧
       (k = 3%nat → score s' = Int (n + 500)) ∧
       (k = 4%nat → score s' = Int (n + 800))) ∧
    ((4 < k)%nat → score s' = NaN) ∧
    (score p = NaN → (0 < k)%nat → score s' = NaN).
Proof.
  intros Hwf Hin.
  destruct (mergeTetromino_result s p next Hwf Hin) as (merged & cleared & k & E1 & E2 & E3).
  eexists merged, _, k. split; [exact E1|].
  split; [|split; [exact E3|]]; [exact E2|].
  assert (Hk : (k ≤ 10)%nat).
  { destruct (mergeRows_wf (position s) (tetromino s) 0 (spread <$> board s))
      as (b1 & E1' & [Hlen _]); [by apply wfBoard_spread|..].
    { intros i j Hset. replace (0 + i) with (Z.of_nat i) by lia. by apply Hin. }
    rewrite E1 in E1'. injection E1' as <-.
    destruct (clearLines_general (Z.to_nat BOARD_HEIGHT) 0 merged 0)
      as (c' & m & E & _ & _ & _ & _ & Hm); [simpl; lia|].
    change (replicate 0 emptyRow ++ merged) with merged in E.
    rewrite E2 in E. injection E as _ ->.
    change (Z.to_nat BOARD_HEIGHT) with 20%nat in Hm. lia. }
  split; [done|]. simpl. split; [by intros ->|].
  split; [intros Hpos; by destruct k; [lia|]|]. split.
  { intros n ->. by repeat split; intros ->. }
  split.
  - intros Hpos. do 5 (destruct k as [|k]; [lia|]). simpl. by destruct (score p).
  - intros -> Hpos. by destruct k; [lia|].
Qed.

Lemma mergeTetromino_points_witness :
  wfBoard (board fiveRowsSession) ∧
  ∃ s', mergeTetromino fiveRowsSession fiveRowsSession Kind.T = Ok s' ∧
        score fiveRowsSession = Int 0 ∧ score s' = NaN ∧ speed s' = 790.
Proof.
  assert (Hwf : wfBoard (board fiveRowsSession)).
  { split; [reflexivity|]. repeat constructor. }
  split; [exact Hwf|].
  destruct (mergeTetromino_points fiveRowsSession fiveRowsSession Kind.T Hwf)
    as (merged & s' & k & E1 & E2 & E3 & _).
  { intros y x Hset. change (tetromino fiveRowsSession) with (TETROMINOES Kind.O) in Hset.
    apply isSet_TETROMINOES in Hset.
    unfold BOARD_WIDTH, BOARD_HEIGHT. simpl. lia. }
  exists s'. split; [exact E3|].
  vm_compute in E3. injection E3 as <-. by repeat split.
Defined.

(** ** Key presses *)

(** X8: a key press that returns leaves the board, the score, the tick
    interval, the flags and the kind as they are.  It commits nothing, or the
    one candidate its key stands for, which the collision test has accepted:
    the position one column to the left or right or one row down, or the
    rotated mask at the unchanged position. *)
Theorem handleKeyPress_commits_candidate (fuel : nat) (s s' : Session) (key : Key) :
  handleKeyPress fuel s key = Ok s' →
  board s' = board s ∧ score s' = score s ∧ speed s' = speed s ∧
  gameOver s' = gameOver s ∧ isPaused s' = isPaused s ∧
  tetrominoType s' = tetrominoType s ∧
  (s' = s ∨
   (∃ newPos,
      s' = setPosition newPos s ∧
      isColliding (board s) newPos (tetromino s) = Ok false ∧
      ((key = ArrowLeft ∧
        newPos = mkPosition (pos_x (position s) + -1) (pos_y (position s))) ∨
       (key = ArrowRight ∧
        newPos = mkPosition (pos_x (position s) + 1) (pos_y (position s))) ∨
       (key = ArrowDown ∧
        newPos = mkPosition (pos_x (position s)) (pos_y (position s) + 1)))) ∨
   (key = ArrowUp ∧
    ∃ r, rotated (tetromino s) = Ok r ∧
         isColliding (board s) (position s) r = Ok false ∧
         s' = setTetromino r s)).
Proof.
  intros H. unfold handleKeyPress in H.
  destruct (gameOver s || isPaused s).
  { injection H as <-. repeat split; by left. }
  destruct key; simpl in H.
  - unfold moveHorizontal in H.
    destruct (isColliding (board s) _ (tetromino s)) as [[|]| |] eqn:E; simpl in H;
      try discriminate; injection H as <-; repeat split; [by left|].
    right; left. eexists. split; [done|]. split; [exact E|]. by left.
  - unfold moveHorizontal in H.
    destruct (isColliding (board s) _ (tetromino s)) as [[|]| |] eqn:E; simpl in H;
      try discriminate; injection H as <-; repeat split; [by left|].
    right; left. eexists. split; [done|]. split; [exact E|]. right. by left.
  - unfold moveDown in H.
    destruct (isColliding (board s) _ (tetromino s)) as [[|]| |] eqn:E; simpl in H;
      try discriminate; injection H as <-; repeat split; [by left|].
    right; left. eexists. split; [done|]. split; [exact E|]. right. by right.
  - unfold rotate in H. destruct (rotated (tetromino s)) as [r| |] eqn:Er; simpl in H;
      try discriminate.
    destruct (isColliding (board s) (position s) r) as [[|]| |] eqn:E; simpl in H;
      try discriminate; injection H as <-; repeat split; [by left|].
    right; right. split; [done|]. by exists r.
  - apply whileMoveDown_Ok in H as [-> _]. repeat split; by left.
  - injection H as <-. repeat split; by left.
Qed.

Lemma handleKeyPress_commits_candidate_witness :
  handleKeyPress 0 spawnedO ArrowLeft = Ok (setPosition (mkPosition 3 0) spawnedO) ∧
  board (setPosition (mkPosition 3 0) spawnedO) = board spawnedO ∧
  score (setPosition (mkPosition 3 0) spawnedO) = score spawnedO.
Proof.
  assert (H : handleKeyPress 0 spawnedO ArrowLeft = Ok (setPosition (mkPosition 3 0) spawnedO))
    by reflexivity.
  split; [exact H|].
  destruct (handleKeyPress_commits_candidate 0 spawnedO _ ArrowLeft H) as (Hb & Hs & _).
  split; [exact Hb|exact Hs].
Defined.

Lemma moveHorizontal_accepted (s : Session) (delta : Z) :
  isColliding (board s) (mkPosition (pos_x (position s) + delta) (pos_y (position s)))
    (tetromino s) = Ok false →
  moveHorizontal s delta s =
    Ok (setPosition (mkPosition (pos_x (position s) + delta) (pos_y (position s))) s).
Proof. intros E. unfold moveHorizontal. by rewrite E. Qed.

Lemma moveHorizontal_there_and_back (s : Session) (d1 d2 : Z) :
  d1 + d2 = 0 →
  isColliding (board s) (position s) (tetromino s) = Ok false →
  isColliding (board s) (mkPosition (pos_x (position s) + d1) (pos_y (position s)))
    (tetromino s) = Ok false →
  (s1 ← moveHorizontal s d1 s; moveHorizontal s1 d2 s1) = Ok s.
Proof.
  intros Hd Hhere E. rewrite (moveHorizontal_accepted s d1 E), bind_Ok.
  rewrite moveHorizontal_accepted; simpl.
  - replace (pos_x (position s) + d1 + d2) with (pos_x (position s)) by lia.
    f_equal. destruct s as [b [x y] t ty sc go pa sp]. done.
  - replace (pos_x (position s) + d1 + d2) with (pos_x (position s)) by lia.
    by destruct (position s).
Qed.

(** X9: on a falling session whose piece is at a legal position, a move to
    the left that is legal followed by a move to the right gives back the
    session, and so does a legal move to the right followed by a move to the
    left. *)
Theorem moveHorizontal_round_trip (fuel : nat) (s : Session) :
  gameOver s = false → isPaused s = false →
  isColliding (board s) (position s) (tetromino s) = Ok false →
  (isColliding (board s) (mkPosition (pos_x (position s) + -1) (pos_y (position s)))
     (tetromino s) = Ok false →
   run fuel s [KeyDown ArrowLeft; KeyDown ArrowRight] = Ok s) ∧
  (isColliding (board s) (mkPosition (pos_x (position s) + 1) (pos_y (position s)))
     (tetromino s) = Ok false →
   run fuel s [KeyDown ArrowRight; KeyDown ArrowLeft] = Ok s).
Proof.
  intros Hover Hpaused Hhere.
  split; intros E; simpl; unfold handleKeyPress; rewrite Hover, Hpaused; simpl.
  - pose proof (moveHorizontal_there_and_back s (-1) 1 eq_refl Hhere E) as Hback.
    rewrite (moveHorizontal_accepted s (-1) E) in Hback |- *.
    rewrite bind_Ok in Hback |- *. simpl. rewrite Hover, Hpaused. simpl.
    by rewrite Hback.
  - pose proof (moveHorizontal_there_and_back s 1 (-1) eq_refl Hhere E) as Hback.
    rewrite (moveHorizontal_accepted s 1 E) in Hback |- *.
    rewrite bind_Ok in Hback |- *. simpl. rewrite Hover, Hpaused. simpl.
    by rewrite Hback.
Qed.

Lemma moveHorizontal_round_trip_witness :
  run 0 spawnedO [KeyDown ArrowLeft; KeyDown ArrowRight] = Ok spawnedO ∧
  run 0 spawnedO [KeyDown ArrowRight; KeyDown ArrowLeft] = Ok spawnedO.
Proof.
  destruct (moveHorizontal_round_trip 0 spawnedO eq_refl eq_refl eq_refl) as [Hl Hr].
  split; [apply Hl|apply Hr]; reflexivity.
Defined.

(** X10: on a falling session whose piece can move down, the loop of the
    hard drop does not end, however many iterations it is granted, while a
    single down key moves the piece one row; when the piece cannot move down
    the hard drop returns at once and changes nothing. *)
Theorem hardDrop_ends_only_at_rest (s : Session) :
  gameOver s = false → isPaused s = false →
  (isColliding (board s) (mkPosition (pos_x (position s)) (pos_y (position s) + 1))
     (tetromino s) = Ok false →
   (∀ fuel, handleKeyPress fuel s Space = OutOfFuel) ∧
   (∀ fuel, handleKeyPress fuel s ArrowDown =
      Ok (setPosition (mkPosition (pos_x (position s)) (pos_y (position s) + 1)) s))) ∧
  (isColliding (board s) (mkPosition (pos_x (position s)) (pos_y (position s) + 1))
     (tetromino s) = Ok true →
   ∀ fuel, handleKeyPress (S fuel) s Space = Ok s).
Proof.
  intros Hover Hpaused. split.
  - intros E. split; intros fuel; unfold handleKeyPress; rewrite Hover, Hpaused; simpl.
    + by apply whileMoveDown_diverges.
    + unfold moveDown. by rewrite E.
  - intros E fuel. unfold handleKeyPress. rewrite Hover, Hpaused.
    by apply whileMoveDown_rest.
Qed.

Lemma hardDrop_ends_only_at_rest_witness :
  (∀ fuel, handleKeyPress fuel spawnedO Space = OutOfFuel) ∧
  (∀ fuel, handleKeyPress fuel spawnedO ArrowDown =
     Ok (setPosition (mkPosition 4 1) spawnedO)) ∧
  (∀ fuel, handleKeyPress (S fuel) restingO Space = Ok restingO).
Proof.
  destruct (hardDrop_ends_only_at_rest spawnedO eq_refl eq_refl) as [Hfall _].
  destruct (hardDrop_ends_only_at_rest restingO eq_refl eq_refl) as [_ Hrest].
  destruct (Hfall eq_refl) as [Hspace Hdown].
  split; [exact Hspace|]. split; [exact Hdown|]. exact (Hrest eq_refl).
Defined.

(** ** Callbacks that return *)

Lemma isColliding_total (b : Board) (pos : Position) (t : TetrominoType) :
  (Z.to_nat BOARD_HEIGHT ≤ length b)%nat → ∃ c, isColliding b pos t = Ok c.
Proof.
  intros Hlen. unfold isColliding.
  destruct (collidingRows_spec b pos Hlen t 0) as [[E _]|[E _]]; rewrite E; eauto.
Qed.

Lemma rotations_rect (n : nat) :
  ∀ t (r c : nat) t',
    rect r c t → (0 < r)%nat → (0 < c)%nat → rotations n t = Ok t' →
    ∃ r' c' : nat, rect r' c' t' ∧ (0 < r')%nat ∧ (0 < c')%nat.
Proof.
  induction n as [|n IH]; intros t r c t' Hrect Hr Hc H; simpl in H.
  { injection H as <-. by exists r, c. }
  destruct (rotated_rect r c t Hrect Hr) as (t1 & E1 & Hrect1 & _).
  rewrite E1, bind_Ok in H. by apply (IH t1 c r t').
Qed.

Lemma orientationOf_rect (k : Kind.t) (t : TetrominoType) :
  orientationOf k t → ∃ r c : nat, rect r c t ∧ (0 < r)%nat ∧ (0 < c)%nat.
Proof.
  intros (n & _ & E). destruct (TETROMINOES_rect k) as (r & c & Hk & Hr & Hc).
  apply (rotations_rect n (TETROMINOES k) r c t); (done || lia).
Qed.

Lemma rotated_total (k : Kind.t) (t : TetrominoType) :
  orientationOf k t → ∃ r, rotated t = Ok r.
Proof.
  intros Hor. destruct (orientationOf_rect k t Hor) as (r & c & Hrect & Hr & _).
  destruct (rotated_rect r c t Hrect Hr) as (t1 & E1 & _). eauto.
Qed.

(** ** Gravity ends in a lock *)

Lemma fall_to_rest (next : Kind.t) (d : nat) :
  ∀ s,
    invariant s → (∃ i j : nat, isSet (tetromino s) i j) → isPaused s = false →
    20 - pos_y (position s) ≤ d →
    ∃ n : nat,
      pos_y (position s) + n ≤ 19 ∧
      (∀ m : nat, (m < n)%nat →
         isColliding (board s)
           (mkPosition (pos_x (position s)) (pos_y (position s) + m + 1)) (tetromino s)
           = Ok false) ∧
      isColliding (board s)
        (mkPosition (pos_x (position s)) (pos_y (position s) + n + 1)) (tetromino s)
        = Ok true ∧
      run 0 s (replicate n (Tick next))
        = Ok (setPosition
                (mkPosition (pos_x (position s)) (pos_y (position s) + n)) s) ∧
      invariant (setPosition
                   (mkPosition (pos_x (position s)) (pos_y (position s) + n)) s).
Proof.
  induction d as [|d IH]; intros s Hinv Hset Hpaused Hd;
    pose proof Hinv as (Hwf & Hin & Hy & Hover);
    destruct Hset as (i & j & Hset); pose proof (Hin i j Hset) as [_ Hrow];
    unfold BOARD_HEIGHT in Hrow; [lia|].
  destruct (isColliding_total (board s)
    (mkPosition (pos_x (position s)) (pos_y (position s) + 1)) (tetromino s))
    as [[|] E]; [destruct Hwf; lia|..].
  - exists 0%nat. split; [lia|]. split; [intros m Hm; lia|]. simpl.
    replace (pos_y (position s) + 0%nat) with (pos_y (position s)) by lia.
    split; [done|].
    assert (Heta : setPosition (mkPosition (pos_x (position s)) (pos_y (position s))) s = s).
    { destruct s as [b [x y] t ty sc go pa sp]. done. }
    rewrite Heta. by split.
  - assert (Htick : tick s next =
      Ok (setPosition (mkPosition (pos_x (position s)) (pos_y (position s) + 1)) s)).
    { unfold tick, useInterval, intervalCallback, moveDown.
      rewrite Hover, Hpaused, E. done. }
    destruct (IH (setPosition (mkPosition (pos_x (position s)) (pos_y (position s) + 1)) s))
      as (n & Hn & Hfree & Hrest & Hrun & Hinv').
    + apply invariant_setPosition; [done|simpl; lia|done].
    + by exists i, j.
    + done.
    + simpl. lia.
    + simpl in Hn, Hfree, Hrest, Hrun, Hinv'. exists (S n). split; [lia|].
      replace (pos_y (position s) + S n) with (pos_y (position s) + 1 + n) by lia.
      split.
      { intros [|m] Hm.
        - replace (pos_y (position s) + 0%nat + 1) with (pos_y (position s) + 1) by lia.
          exact E.
        - replace (pos_y (position s) + S m + 1) with (pos_y (position s) + 1 + m + 1)
            by lia.
          apply Hfree. lia. }
      split; [done|]. split; [|exact Hinv'].
      simpl. rewrite Htick, bind_Ok. exact Hrun.
Qed.

(** X12: take a falling session with a board of BOARD_HEIGHT rows of
    BOARD_WIDTH slots and a piece, of at least one set cell, inside the grid.
    Ticks alone move the piece straight down, in its column and orientation,
    through n <= 19 legal positions to the first row from which one more
    move down collides.  The tick after those writes 1 under every set cell
    of the piece at that place and changes no other slot, runs the line loop
    on the result, adds the points of the count, shortens the tick interval
    when the count is not 0, and spawns the next piece at (4, 0); the session
    is not over. *)
Theorem piece_falls_and_locks (s : Session) (next : Kind.t) :
  invariant s → (∃ i j : nat, isSet (tetromino s) i j) → isPaused s = false →
  ∃ (n : nat) (merged : Board) (k : nat) (s' : Session),
    (n ≤ 19)%nat ∧
    (∀ m : nat, (m < n)%nat →
       isColliding (board s)
         (mkPosition (pos_x (position s)) (pos_y (position s) + m + 1)) (tetromino s)
         = Ok false) ∧
    isColliding (board s)
      (mkPosition (pos_x (position s)) (pos_y (position s) + n + 1)) (tetromino s)
      = Ok true ∧
    run 0 s (replicate n (Tick next))
      = Ok (setPosition (mkPosition (pos_x (position s)) (pos_y (position s) + n)) s) ∧
    run 0 s (replicate (S n) (Tick next)) = Ok s' ∧
    mergeRows (mkPosition (pos_x (position s)) (pos_y (position s) + n)) (tetromino s) 0
      (spread <$> board s) = Ok (Written merged) ∧
    (∀ i j : nat, isSet (tetromino s) i j →
       cellAt merged (Z.to_nat (pos_y (position s) + n + i))
         (Z.to_nat (pos_x (position s) + j)) = Some (Num 1)) ∧
    (∀ ay ax : nat,
       (∀ i j : nat, isSet (tetromino s) i j →
          ¬ (Z.of_nat ay = pos_y (position s) + n + i ∧
             Z.of_nat ax = pos_x (position s) + j)) →
       cellAt merged ay ax = cellAt (spread <$> board s) ay ax) ∧
    clearLines (Z.to_nat BOARD_HEIGHT) merged 0 = Ok (board s', k) ∧
    score s' = (if (0 <? k)%nat then add (score s) (pointsTable !! k) else score s) ∧
    speed s' = (if (0 <? k)%nat then Z.max 100 (speed s - 10) else speed s) ∧
    position s' = mkPosition 4 0 ∧
    tetromino s' = TETROMINOES next ∧
    tetrominoType s' = next ∧
    gameOver s' = false ∧
    isPaused s' = false.
Proof.
  intros Hinv Hset Hpaused.
  destruct (fall_to_rest next (Z.to_nat (20 - pos_y (position s))) s Hinv Hset Hpaused)
    as (n & Hn & Hfree & Hrest & Hrun & Hinv1).
  { destruct Hinv as (_ & _ & Hy & _). lia. }
  set (s1 := setPosition (mkPosition (pos_x (position s)) (pos_y (position s) + n)) s) in *.
  pose proof Hinv1 as (Hwf1 & Hin1 & _ & Hover1).
  destruct (mergeTetromino_result s1 s1 next Hwf1 Hin1)
    as (merged & cleared & k & E1 & E2 & E3).
  destruct (mergeRows_cells (position s1) (tetromino s1) 0 (spread <$> board s1))
    as (merged' & E1' & _ & _ & Hcells & Hother); [by apply wfBoard_spread|..].
  { intros i j H. replace (0 + i) with (Z.of_nat i) by lia. by apply Hin1. }
  rewrite E1 in E1'. injection E1' as <-.
  exists n, merged, k. eexists.
  split; [destruct Hinv as (_ & _ & Hy & _); lia|].
  split; [exact Hfree|]. split; [exact Hrest|]. split; [exact Hrun|].
  split.
  { rewrite replicate_S_end, run_app, Hrun, bind_Ok. simpl.
    unfold tick, useInterval, intervalCallback, moveDown.
    change (gameOver s1) with (gameOver s). change (isPaused s1) with (isPaused s).
    destruct Hinv as (_ & _ & _ & Hover). rewrite Hover, Hpaused. simpl.
    change (board s1) with (board s). change (tetromino s1) with (tetromino s).
    change (pos_x (position s1)) with (pos_x (position s)).
    change (pos_y (position s1)) with (pos_y (position s) + n).
    rewrite Hrest. simpl. rewrite E3. reflexivity. }
  split; [exact E1|]. split.
  { intros i j H.
    replace (pos_y (position s) + n + i) with (pos_y (position s1) + (0 + i))
      by (simpl; lia).
    by apply Hcells. }
  split.
  { intros ay ax H. apply Hother. intros i j Hij. simpl.
    replace (pos_y (position s) + n + (0 + i)) with (pos_y (position s) + n + i) by lia.
    by apply H. }
  split; [exact E2|]. simpl. repeat split; (done || exact Hpaused).
Qed.

Lemma piece_falls_and_locks_witness :
  invariant twoRowsSession ∧
  (∃ i j : nat, isSet (tetromino twoRowsSession) i j) ∧
  isPaused twoRowsSession = false ∧
  ∃ (n : nat) (merged : Board) (k : nat) (s' : Session),
    (n ≤ 19)%nat ∧
    run 0 twoRowsSession (replicate (S n) (Tick Kind.T)) = Ok s' ∧
    clearLines (Z.to_nat BOARD_HEIGHT) merged 0 = Ok (board s', k) ∧
    position s' = mkPosition 4 0 ∧ tetromino s' = TETROMINOES Kind.T.
Proof.
  assert (Hinv : invariant twoRowsSession).
  { apply (run_invariant 0 twoRowsGame initialSession); [exact invariant_initialSession|].
    vm_compute. reflexivity. }
  assert (Hset : ∃ i j : nat, isSet (tetromino twoRowsSession) i j).
  { exists 0%nat, 0%nat, [1; 1], 1. by repeat split. }
  split; [exact Hinv|]. split; [exact Hset|]. split; [reflexivity|].
  destruct (piece_falls_and_locks twoRowsSession Kind.T Hinv Hset eq_refl)
    as (n & merged & k & s' & Hn & _ & _ & _ & Hrun & _ & _ & _ & Hclear & _ & _ & Hpos & Ht & _).
  by exists n, merged, k, s'.
Defined.

(** ** Rendering *)

Lemma currentInRow_true (pos : Position) (x y tY : Z) (cells : list Z) :
  ∀ tX0 acc,
    currentInRow pos x y tY cells tX0 acc = true ↔
    acc = true ∨
    ∃ (j : nat) c, cells !! j = Some c ∧ c ≠ 0 ∧
      pos_x pos + (tX0 + j) = x ∧ pos_y pos + tY = y.
Proof.
  induction cells as [|c rest IH]; intros tX0 acc; simpl.
  { split; [by left|]. intros [H|(j & c & H & _)]; [done|]. by rewrite lookup_nil in H. }
  destruct (nonzero c && (pos_x pos + tX0 =? x) && (pos_y pos + tY =? y)) eqn:E.
  - split; [|done]. intros _. right. zbool. apply nonzero_true in H.
    exists 0%nat, c. repeat split; (done || lia).
  - rewrite IH. split.
    + intros [H|(j & c' & Hj & Hc' & Hx & Hy')]; [by left|]. right.
      exists (S j), c'. repeat split; (done || lia).
    + intros [H|([|j] & c' & Hj & Hc' & Hx & Hy')]; [by left| |].
      * simpl in Hj. injection Hj as <-. apply nonzero_true in Hc'.
        replace (pos_x pos + tX0 =? x) with true in E by (symmetry; apply Z.eqb_eq; lia).
        replace (pos_y pos + tY =? y) with true in E by (symmetry; apply Z.eqb_eq; lia).
        rewrite Hc' in E. discriminate.
      * right. exists j, c'. repeat split; (done || lia).
Qed.

Lemma currentInRows_true (pos : Position) (x y : Z) (rows : TetrominoType) :
  ∀ tY0 acc,
    currentInRows pos x y rows tY0 acc = true ↔
    acc = true ∨
    ∃ i j : nat, isSet rows i j ∧ pos_x pos + j = x ∧ pos_y pos + (tY0 + i) = y.
Proof.
  induction rows as [|cells rest IH]; intros tY0 acc; simpl.
  { split; [by left|]. intros [H|(i & j & (cs & c & H & _) & _)]; [done|].
    by rewrite lookup_nil in H. }
  rewrite IH, currentInRow_true. split.
  - intros [[H|(j & c & Hj & Hc & Hx & Hy)]|(i & j & (cs & c & Hcs & Hc & Hne) & Hx & Hy)].
    + by left.
    + right. exists 0%nat, j. split; [by exists cells, c|]. lia.
    + right. exists (S i), j. split; [by exists cs, c|]. lia.
  - intros [H|(i & j & (cs & c & Hcs & Hc & Hne) & Hx & Hy)]; [left; by left|].
    destruct i as [|i]; simpl in Hcs.
    + injection Hcs as <-. left. right. exists j, c. repeat split; (done || lia).
    + right. exists i, j. split; [by exists cs, c|]. lia.
Qed.

(** X13: [renderCell] draws an occupied board cell as locked whatever the
    piece; it draws a cell that is not occupied in the colour of the kind of
    the piece exactly when a set cell of the piece lies on it, and as empty
    otherwise.  The three classes are different for every kind. *)
Theorem renderCell_class (s : Session) (c : cell) (x y : Z) :
  (truthy c = true →
   renderCell s c x y = "w-6 h-6 border border-gray-700 bg-gray-600") ∧
  (truthy c = false →
   (∃ tY tX : nat, isSet (tetromino s) tY tX ∧
      pos_x (position s) + tX = x ∧ pos_y (position s) + tY = y) →
   renderCell s c x y = "w-6 h-6 border border-gray-700 " +:+ COLORS (tetrominoType s)) ∧
  (truthy c = false →
   ¬ (∃ tY tX : nat, isSet (tetromino s) tY tX ∧
        pos_x (position s) + tX = x ∧ pos_y (position s) + tY = y) →
   renderCell s c x y = "w-6 h-6 border border-gray-700 bg-gray-900") ∧
  COLORS (tetrominoType s) ≠ "bg-gray-600" ∧
  COLORS (tetrominoType s) ≠ "bg-gray-900".
Proof.
  unfold renderCell. split; [by intros ->|]. split; [|split].
  - intros -> (tY & tX & Hset & Hx & Hy). simpl.
    replace (currentInRows (position s) x y (tetromino s) 0 false) with true; [done|].
    symmetry. apply currentInRows_true. right. exists tY, tX. split; [done|]. lia.
  - intros -> Hnone. simpl.
    destruct (currentInRows (position s) x y (tetromino s) 0 false) eqn:E; [|done].
    apply currentInRows_true in E as [E|(i & j & Hset & Hx & Hy)]; [done|].
    destruct Hnone. exists i, j. split; [done|]. lia.
  - by destruct (tetrominoType s).
Qed.

Lemma renderCell_class_witness :
  (∃ tY tX : nat, isSet (tetromino restingO) tY tX ∧
     pos_x (position restingO) + tX = 5 ∧ pos_y (position restingO) + tY = 19) ∧
  renderCell restingO (Num 0) 5 19 = "w-6 h-6 border border-gray-700 bg-yellow-500" ∧
  renderCell restingO (Num 1) 5 19 = "w-6 h-6 border border-gray-700 bg-gray-600".
Proof.
  assert (H : ∃ tY tX : nat, isSet (tetromino restingO) tY tX ∧
    pos_x (position restingO) + tX = 5 ∧ pos_y (position restingO) + tY = 19).
  { exists 1%nat, 1%nat. split; [|done]. by exists [1; 1], 1. }
  destruct (renderCell_class restingO (Num 0) 5 19) as (_ & Hpiece & _).
  destruct (renderCell_class restingO (Num 1) 5 19) as (Hlocked & _).
  split; [exact H|]. split; [exact (Hpiece eq_refl H)|exact (Hlocked eq_refl)].
Defined.

(** ** Four turns *)

Lemma run_rotations (fuel : nat) (n : nat) :
  ∀ (s : Session) (r c : nat),
    gameOver s = false → isPaused s = false →
    rect r c (tetromino s) → (0 < r)%nat → (0 < c)%nat →
    (∀ (m : nat) t, (1 ≤ m ≤ n)%nat → rotations m (tetromino s) = Ok t →
       isColliding (board s) (position s) t = Ok false) →
    ∃ t', rotations n (tetromino s) = Ok t' ∧
          run fuel s (replicate n (KeyDown ArrowUp)) = Ok (setTetromino t' s).
Proof.
  induction n as [|n IH]; intros s r c Hover Hpaused Hrect Hr Hc Hfree.
  { exists (tetromino s). split; [done|]. simpl. f_equal. by destruct s. }
  destruct (rotated_rect r c (tetromino s) Hrect Hr) as (t1 & E1 & Hrect1 & _).
  assert (Hfree1 : isColliding (board s) (position s) t1 = Ok false).
  { apply (Hfree 1%nat); [lia|]. simpl. by rewrite E1. }
  destruct (IH (setTetromino t1 s) c r Hover Hpaused Hrect1 Hc Hr) as (t' & E' & Hrun).
  { intros m t Hm Ht. apply (Hfree (S m)); [lia|].
    change (rotations (S m) (tetromino s)) with (t0 ← rotated (tetromino s); rotations m t0).
    by rewrite E1, bind_Ok. }
  exists t'. split.
  - change (rotations (S n) (tetromino s)) with (t0 ← rotated (tetromino s); rotations n t0).
    by rewrite E1, bind_Ok.
  - simpl. unfold handleKeyPress. rewrite Hover, Hpaused. simpl.
    unfold rotate. rewrite E1, bind_Ok, Hfree1. simpl. exact Hrun.
Qed.

(** X14: on a falling session whose mask is rectangular, four presses of the
    up key give back the session when none of the four rotated masks
    collides at the position of the piece. *)
Theorem rotate_four_times (fuel : nat) (s : Session) (r c : nat) :
  gameOver s = false → isPaused s = false →
  rect r c (tetromino s) → (0 < r)%nat → (0 < c)%nat →
  (∀ (m : nat) t, (1 ≤ m ≤ 4)%nat → rotations m (tetromino s) = Ok t →
     isColliding (board s) (position s) t = Ok false) →
  run fuel s (replicate 4 (KeyDown ArrowUp)) = Ok s.
Proof.
  intros Hover Hpaused Hrect Hr Hc Hfree.
  destruct (run_rotations fuel 4 s r c Hover Hpaused Hrect Hr Hc Hfree) as (t' & E & Hrun).
  rewrite (rotations_four_rect r c) in E by done. injection E as <-.
  rewrite Hrun. f_equal. by destruct s.
Qed.

Lemma rotate_four_times_witness :
  run 0 (setPosition (mkPosition 4 5) (setTetromino (TETROMINOES Kind.T) initialSession))
    (replicate 4 (KeyDown ArrowUp))
  = Ok (setPosition (mkPosition 4 5) (setTetromino (TETROMINOES Kind.T) initialSession)).
Proof.
  apply (rotate_four_times 0 _ 2 3); try reflexivity; try lia.
  - split; [reflexivity|repeat constructor].
  - intros m t Hm Ht.
    do 5 (destruct m as [|m]; [first [lia | vm_compute in Ht; injection Ht as <-; reflexivity]|]).
    lia.
Defined.

(** * Several callbacks of one render *)

(** X6: in every session the component renders, however many callbacks of
    one render have run, the mask of the active piece is the base mask of
    one of the seven kinds after zero to three applications of the rotation
    transform.  When every callback runs on the render that follows the one
    of the callback before it, that kind is the kind in tetrominoType. *)
Theorem reachable_mask_turned (s : Session) :
  reachable s →
  (∃ (k : Kind.t) (n : nat), (n < 4)%nat ∧ rotations n (TETROMINOES k) = Ok (tetromino s)) ∧
  (∀ fuel events, run fuel initialSession events = Ok s →
     ∃ n : nat, (n < 4)%nat ∧
       rotations n (TETROMINOES (tetrominoType s)) = Ok (tetromino s)).
Proof.
  intros Hreach. split.
  - destruct (reachable_renderInvariant s Hreach) as (_ & _ & _ & _ & _ & Hor & _).
    exact Hor.
  - intros fuel events Hrun.
    destruct (run_playInvariant fuel events initialSession s
                invariant_initialSession playInvariant_initialSession Hrun)
      as (_ & _ & _ & Hor).
    exact Hor.
Qed.

Lemma reachable_mask_turned_witness :
  reachable staleAtWall ∧
  ∃ (k : Kind.t) (n : nat), (n < 4)%nat ∧
    rotations n (TETROMINOES k) = Ok (tetromino staleAtWall).
Proof.
  assert (H : reachable staleAtWall).
  { apply (reachable_batch uprightAtWall [Tick Kind.I; KeyDown ArrowLeft] 0%nat).
    - apply (run_reachable 0 wallGame initialSession); [exact reachable_init|].
      vm_compute. reflexivity.
    - vm_compute. reflexivity. }
  split; [exact H|]. exact (proj1 (reachable_mask_turned staleAtWall H)).
Defined.

(** X11: on a render whose board has BOARD_HEIGHT rows of BOARD_WIDTH slots
    and whose piece, of a mask that is not empty, lies inside the grid, no
    callback throws, whatever callbacks of that render ran before it: every
    tick, click and key press other than the hard drop returns, and the hard
    drop returns or does not end. *)
Theorem callbacks_no_TypeError (s : Session) :
  wfBoard (board s) → inGrid (position s) (tetromino s) → tetromino s ≠ [] →
  (∀ fuel p e,
     stepOn fuel s p e ≠ TypeError ∧
     (e ≠ KeyDown Space → ∃ p', stepOn fuel s p e = Ok p')) ∧
  (∀ fuel p events, batch fuel s p events ≠ TypeError) ∧
  (∀ fuel e, step fuel s e ≠ TypeError).
Proof.
  intros Hwf Hin Hmask.
  assert (Hlen : (Z.to_nat BOARD_HEIGHT ≤ length (board s))%nat) by (destruct Hwf; lia).
  assert (Hstep : ∀ fuel p e,
    stepOn fuel s p e ≠ TypeError ∧
    (e ≠ KeyDown Space → ∃ p', stepOn fuel s p e = Ok p')).
  { intros fuel p e.
    assert (Hok : ∀ r : result Session, (∃ p', r = Ok p') →
      r ≠ TypeError ∧ (e ≠ KeyDown Space → ∃ p', r = Ok p')).
    { intros r [p' ->]. split; [done|]. eauto. }
    assert (Hmove : ∀ delta, ∃ p', moveHorizontal s delta p = Ok p').
    { intros delta. unfold moveHorizontal.
      destruct (isColliding_total (board s)
        (mkPosition (pos_x (position s) + delta) (pos_y (position s))) (tetromino s) Hlen)
        as [c E].
      rewrite E. simpl. destruct c; simpl; eauto. }
    destruct (isColliding_total (board s)
      (mkPosition (pos_x (position s)) (pos_y (position s) + 1)) (tetromino s) Hlen)
      as [down Edown].
    destruct e as [key|next| |next]; simpl.
    - unfold handleKeyPressOn. destruct (gameOver s || isPaused s); [apply Hok; eauto|].
      destruct key; try (apply Hok; by eauto).
      + apply Hok. unfold moveDown. rewrite Edown. simpl. destruct down; simpl; eauto.
      + apply Hok. unfold rotate, rotated.
        destruct (tetromino s) as [|row0 rows] eqn:Et; [done|]. rewrite bind_Ok.
        match goal with |- context [isColliding (board s) (position s) ?r] =>
          destruct (isColliding_total (board s) (position s) r Hlen) as [c E]; rewrite E
        end.
        simpl. destruct c; simpl; eauto.
      + split; [|done]. destruct down.
        * destruct fuel; [done|]. by rewrite whileMoveDown_rest.
        * by rewrite whileMoveDown_diverges.
    - apply Hok. unfold tickOn, useInterval.
      destruct (negb (gameOver s) && negb (isPaused s)); [|eauto].
      unfold intervalCallbackOn, moveDown. rewrite Edown. simpl.
      destruct down; simpl; [|eauto].
      destruct (mergeTetromino_inGrid s p next Hwf Hin) as (b & sc & sp & E & _). eauto.
    - apply Hok. eauto.
    - apply Hok. eauto. }
  split; [exact Hstep|]. split.
  - intros fuel p events. revert p. induction events as [|e rest IH]; intros p; simpl; [done|].
    destruct (stepOn fuel s p e) as [p1| |] eqn:E; simpl; [apply IH| |done].
    by destruct (Hstep fuel p e) as [Hne _].
  - intros fuel e. rewrite <- stepOn_step. apply Hstep.
Qed.

Lemma callbacks_no_TypeError_witness :
  wfBoard (board uprightAtWall) ∧
  inGrid (position uprightAtWall) (tetromino uprightAtWall) ∧
  tetromino uprightAtWall ≠ [] ∧
  batch 0 uprightAtWall uprightAtWall [Tick Kind.I; KeyDown ArrowLeft] ≠ TypeError.
Proof.
  assert (Hinv : invariant uprightAtWall).
  { apply (run_invariant 0 wallGame initialSession); [exact invariant_initialSession|].
    vm_compute. reflexivity. }
  destruct Hinv as (Hwf & Hin & _).
  assert (Hmask : tetromino uprightAtWall ≠ []) by discriminate.
  split; [exact Hwf|]. split; [exact Hin|]. split; [exact Hmask|].
  destruct (callbacks_no_TypeError uprightAtWall Hwf Hin Hmask) as (_ & Hbatch & _).
  apply Hbatch.
Defined.

(** X15: take a falling session, with a board of BOARD_HEIGHT rows of
    BOARD_WIDTH slots and the piece inside the grid, whose piece cannot move
    down, so that the tick locks it and spawns the next piece.  A left or
    right key handled on the same render after that tick tests the move of
    the old piece on the old board and, when that is legal, puts the new
    piece at the old position moved by one column, not at (4, 0); an up key
    handled there gives the new piece the rotated mask of the old one. *)
Theorem stale_key_after_lock (fuel : nat) (s : Session) (next : Kind.t) :
  invariant s → isPaused s = false →
  isColliding (board s) (mkPosition (pos_x (position s)) (pos_y (position s) + 1))
    (tetromino s) = Ok true →
  ∃ locked,
    tick s next = Ok locked ∧
    position locked = mkPosition 4 0 ∧
    tetromino locked = TETROMINOES next ∧
    tetrominoType locked = next ∧
    (∀ key delta,
       (key = ArrowLeft ∧ delta = -1) ∨ (key = ArrowRight ∧ delta = 1) →
       isColliding (board s)
         (mkPosition (pos_x (position s) + delta) (pos_y (position s))) (tetromino s)
         = Ok false →
       batch fuel s s [Tick next; KeyDown key]
         = Ok (setPosition
                 (mkPosition (pos_x (position s) + delta) (pos_y (position s))) locked)) ∧
    (∀ r, rotated (tetromino s) = Ok r →
       isColliding (board s) (position s) r = Ok false →
       batch fuel s s [Tick next; KeyDown ArrowUp] = Ok (setTetromino r locked)).
Proof.
  intros (Hwf & Hin & Hy & Hover) Hpaused Edown.
  assert (Hlen : (Z.to_nat BOARD_HEIGHT ≤ length (board s))%nat) by (destruct Hwf; lia).
  destruct (mergeTetromino_result s s next Hwf Hin) as (merged & cleared & k & E1 & E2 & E3).
  assert (Htick : ∀ p, tickOn s p next = mergeTetromino s p next).
  { intros p. unfold tickOn, useInterval, intervalCallbackOn, moveDown.
    by rewrite Hover, Hpaused, Edown. }
  eexists. split; [rewrite <- E3; apply (Htick s)|]. split; [done|]. split; [done|].
  split; [done|]. split.
  - intros key delta Hkey E. simpl. rewrite (Htick s), E3, bind_Ok.
    unfold handleKeyPressOn. rewrite Hover, Hpaused. simpl.
    assert (Hm : ∀ p, moveHorizontal s delta p =
      Ok (setPosition (mkPosition (pos_x (position s) + delta) (pos_y (position s))) p)).
    { intros p. unfold moveHorizontal. by rewrite E. }
    destruct Hkey as [[-> ->]|[-> ->]]; by rewrite Hm.
  - intros r Er E. simpl. rewrite (Htick s), E3, bind_Ok.
    unfold handleKeyPressOn. rewrite Hover, Hpaused. simpl.
    unfold rotate. by rewrite Er, bind_Ok, E.
Qed.

Lemma stale_key_after_lock_witness :
  invariant uprightAtWall ∧
  batch 0 uprightAtWall uprightAtWall [Tick Kind.I; KeyDown ArrowLeft] = Ok staleAtWall.
Proof.
  assert (Hinv : invariant uprightAtWall).
  { apply (run_invariant 0 wallGame initialSession); [exact invariant_initialSession|].
    vm_compute. reflexivity. }
  split; [exact Hinv|].
  destruct (stale_key_after_lock 0 uprightAtWall Kind.I Hinv eq_refl eq_refl)
    as (locked & Htick & _ & _ & _ & Hmove & _).
  rewrite (Hmove ArrowLeft (-1)); [|by left|reflexivity].
  vm_compute in Htick. injection Htick as <-. reflexivity.
Defined.

(** C10: a key press handled on the render of a locking tick takes the piece
    out of the grid.  [wallGame] ends in [uprightAtWall], an upright I piece
    at (9, 16) that can move left and cannot move down.  The tick locks it,
    draws a flat I piece and sets the position to (4, 0); the left key of
    the same render then sets the position to (8, 16), and the next render
    has the flat piece over columns 8 to 11.  The tick of that render writes
    row 16 at columns 10 and 11, past the end of the row.  In the same way
    [floorGame], a locking tick that draws an O piece and a left key lead
    to the O piece at (3, 19), over rows 19 and 20; the next tick reads
    row 20 of the board, which is undefined, and throws. *)
Theorem stale_key_after_lock_leaves_grid :
  (run 0 initialSession wallGame = Ok uprightAtWall ∧
   batch 0 uprightAtWall uprightAtWall [Tick Kind.I; KeyDown ArrowLeft] = Ok staleAtWall ∧
   reachable staleAtWall ∧
   wfBoard (board staleAtWall) ∧
   isSet (tetromino staleAtWall) 0 3 ∧
   pos_x (position staleAtWall) + 3%nat = 11 ∧
   ¬ inGrid (position staleAtWall) (tetromino staleAtWall) ∧
   ∀ next, ∃ s',
     tick staleAtWall next = Ok s' ∧
     board s' !! 16%nat = Some (replicate 8 (Num 0) ++ replicate 4 (Num 1)) ∧
     ¬ wfBoard (board s')) ∧
  (run 0 initialSession floorGame = Ok flatAtFloor ∧
   batch 0 flatAtFloor flatAtFloor [Tick Kind.O; KeyDown ArrowLeft] = Ok staleAtFloor ∧
   reachable staleAtFloor ∧
   isSet (tetromino staleAtFloor) 1 0 ∧
   pos_y (position staleAtFloor) + 1%nat = 20 ∧
   ¬ inGrid (position staleAtFloor) (tetromino staleAtFloor) ∧
   ∀ next, tick staleAtFloor next = TypeError).
Proof.
  assert (Hwall : run 0 initialSession wallGame = Ok uprightAtWall)
    by (vm_compute; reflexivity).
  assert (Hfloor : run 0 initialSession floorGame = Ok flatAtFloor)
    by (vm_compute; reflexivity).
  assert (Hset3 : isSet (tetromino staleAtWall) 0 3) by (exists [1; 1; 1; 1], 1; by repeat split).
  assert (Hset1 : isSet (tetromino staleAtFloor) 1 0) by (exists [1; 1], 1; by repeat split).
  split.
  - split; [exact Hwall|]. split; [reflexivity|]. split.
    { apply (reachable_batch uprightAtWall [Tick Kind.I; KeyDown ArrowLeft] 0%nat);
        [|reflexivity].
      exact (run_reachable _ _ _ _ reachable_init Hwall). }
    split; [split; [reflexivity|repeat constructor]|].
    split; [exact Hset3|]. split; [reflexivity|]. split.
    { intros Hin. destruct (Hin _ _ Hset3) as [Hx _].
      unfold BOARD_WIDTH in Hx. simpl in Hx. lia. }
    intros next. eexists. split; [reflexivity|]. split; [reflexivity|].
    intros [_ Hrows].
    pose proof (Forall_lookup_1 _ _ 16%nat _ Hrows eq_refl) as Hlen. discriminate.
  - split; [exact Hfloor|]. split; [reflexivity|]. split.
    { apply (reachable_batch flatAtFloor [Tick Kind.O; KeyDown ArrowLeft] 0%nat);
        [|reflexivity].
      exact (run_reachable _ _ _ _ reachable_init Hfloor). }
    split; [exact Hset1|]. split; [reflexivity|]. split; [|reflexivity].
    intros Hin. destruct (Hin _ _ Hset1) as [_ Hy].
    unfold BOARD_HEIGHT in Hy. simpl in Hy. lia.
Qed.
